(** * A shallow embedding of the companies service

    The development follows the layout of the Python sources:
    - [Company]        : [app/models.py], the table of companies and its
                         create / update / delete operations;
    - [CompanySchema]  : [app/schemas.py], the field validators, together
                         with the [load] entry point of the schema;
    - [CompanyListResource], [CompanyResource] : [app/resources/companies.py];
    - [ExportCSVResource] : [app/resources/export_to.py];
    - [ImportJSONResource], [ImportCSVResource] : [app/resources/import_from.py].

    Conventions.
    - A Python value is a [pyval].  Lists, nested objects and numbers with
      a fractional part are the opaque [POther].
    - A Python [str] is a Rocq [string]; each [ascii] stands for one
      character (a code point below 256), so [len] is [String.length].
    - [uuid.uuid4()] and [db.func.now()] read the environment: they are
      oracles of [Env], indexed by the number of rows the current request
      has created so far.
    - A commit hands every value to the column it is assigned to.  The
      column keeps a value of its own type, converts some others and
      refuses the rest, as SQLAlchemy's types and the SQLite driver do:
      see [Company.bind_string], [Company.bind_integer] and
      [Company.bind_boolean].  After a commit the attributes of the
      instance are those of the stored row.
    - A commit then fails when a constraint declared on the table is
      violated (NOT NULL on [name], primary key on [id]).  The foreign key
      on [parent_id] is declared but not enforced, as the data model of the
      specification describes (a parent may be deleted while children still
      point at it).  Failures of the connection itself are not modelled.
    - The text [str(e)] of a database error is an oracle of [Env].
    - The CSV reader's limit on the size of a field is not modelled. *)

From Stdlib Require Import ZArith Ascii String.
From Stdlib Require Import DecimalString DecimalN DecimalNat DecimalPos.
From stdpp Require Import gmap strings list sorting.

Local Open Scope string_scope.
Local Open Scope Z_scope.

(** ** Python values

    [POther] is a value the model does not detail: a list or an object of
    a JSON document, a number with a fractional part. *)

Inductive pyval : Type :=
| PNone
| PBool (b : bool)
| PInt (z : Z)
| PStr (s : string)
| POther.

#[global] Instance pyval_eq_dec : EqDecision pyval.
Proof. solve_decision. Defined.

(** Keys of a Python dict: a string, or [None] (the [restkey] under which
    [csv.DictReader] files the cells of an over-long row). *)
Abbreviation pykey := (option string).
Abbreviation pydict := (gmap pykey pyval).
Abbreviation kwargs := (gmap string pyval).

(** What [request.get_json()] or one element of an imported JSON array can
    be: an object, or anything else. *)
Inductive payload : Type :=
| Obj (d : pydict)
| NotObj (v : pyval).

(** [d.get(k)] and [d.get(k, dflt)], [k in d]. *)
Definition dict_get (k : string) (d : pydict) : pyval := default PNone (d !! Some k).
Definition dict_get_or (k : string) (dflt : pyval) (d : pydict) : pyval :=
  default dflt (d !! Some k).
Definition has_key (k : string) (d : pydict) : bool :=
  bool_decide (is_Some (d !! Some k)).

(** A keyword argument with its default, as in a [def f(x=dflt)]. *)
Definition kwarg (k : string) (dflt : pyval) (kw : kwargs) : pyval :=
  default dflt (kw !! k).

(** [x is not None] *)
Definition is_not_none (v : pyval) : bool :=
  match v with PNone => false | _ => true end.

(** Truthiness of a value that is a [str] or [None]. *)
Definition truthy (v : option string) : bool :=
  match v with
  | Some (String _ _) => true
  | _ => false
  end.

(** [len(value)] of a [str]. *)
Definition len (v : option string) : nat :=
  match v with Some s => String.length s | None => O end.

(** [c in s] for a one-character [c]. *)
Definition contains_char (c : ascii) (s : string) : bool :=
  existsb (Ascii.eqb c) (list_ascii_of_string s).

(** [value.startswith(('http://', 'https://'))] *)
Definition startswith_http (s : string) : bool :=
  String.prefix "http://" s || String.prefix "https://" s.

(** *** [int(s)] on a string: optional surrounding white space, an optional
    sign, then decimal digits, single underscores allowed between digits.
    The white space is the ASCII one (tab to carriage return, and the
    space) and, above 127, the next-line character and the no-break
    space. *)

Definition is_space (c : ascii) : bool :=
  let n := nat_of_ascii c in
  ((9 <=? n) && (n <=? 13) || (n =? 32) || (n =? 133) || (n =? 160))%nat.

Definition is_digit (c : ascii) : bool :=
  let n := nat_of_ascii c in ((48 <=? n) && (n <=? 57))%nat.

Fixpoint lstrip (l : list ascii) : list ascii :=
  match l with
  | c :: l' => if is_space c then lstrip l' else l
  | [] => []
  end.

Definition strip (l : list ascii) : list ascii :=
  rev (lstrip (rev (lstrip l))).

(** Removes the underscores of a digit part; [None] when one of them is not
    between two digits.  [prev] tells whether the previous character was a
    digit. *)
Fixpoint drop_underscores (prev : bool) (l : list ascii) : option (list ascii) :=
  match l with
  | [] => if prev then Some [] else None
  | c :: l' =>
      if Ascii.eqb c "_"
      then (if prev then drop_underscores false l' else None)
      else cons c <$> drop_underscores true l'
  end.

Definition py_int_of_string (s : string) : option Z :=
  let body := strip (list_ascii_of_string s) in
  let '(neg, rest) :=
    match body with
    | c :: r => if Ascii.eqb c "-" then (true, r)
                else if Ascii.eqb c "+" then (false, r) else (false, body)
    | [] => (false, body)
    end in
  match rest with
  | [] => None
  | c :: _ =>
      if is_digit c then
        ds ← drop_underscores false rest;
        d ← NilEmpty.uint_of_string (string_of_list_ascii ds);
        Some (if neg then - Z.of_N (N.of_uint d) else Z.of_N (N.of_uint d))
      else None
  end.

(** [str(n)] for an [int]. *)
Definition py_str_of_int (z : Z) : string :=
  NilZero.string_of_int (Z.to_int z).

(** ** Time stamps *)

Record datetime : Type := mkDatetime {
  year : N; month : N; day : N;
  hour : N; minute : N; second : N; microsecond : N
}.

#[global] Instance datetime_eq_dec : EqDecision datetime.
Proof. solve_decision. Defined.

(** ** app/models.py *)

(** Why a commit fails: a constraint of the table, a value the [Boolean]
    type refuses, a value the driver cannot bind, an integer beyond 64
    bits. *)
Inductive failure : Type :=
| NotNull (column : string)
| DuplicateKey (key : string)
| NotABoolean (v : pyval)
| Unsupported (v : pyval)
| TooLarge (z : Z).

#[global] Instance failure_eq_dec : EqDecision failure.
Proof. solve_decision. Defined.

(** The environment of one request: the identifiers and the time stamps it
    draws, the text [str(e)] of a failure, and what an INTEGER column makes
    of a text that is not an integer of 64 bits (a real number when the
    text reads as one, the text itself otherwise). *)
Record Env : Type := mkEnv {
  uuid4 : nat -> string;
  now : nat -> datetime;
  str_error : failure -> string;
  numeric_affinity : string -> pyval
}.

(** The exceptions a commit raises.  [IntegrityError] is a subclass of
    [SQLAlchemyError]; the constructor [SQLAlchemyError] stands for the
    other subclasses; [OverflowError] is raised by the driver and is not an
    [SQLAlchemyError]. *)
Inductive DbError : Type :=
| IntegrityError (msg : string)
| SQLAlchemyError (msg : string)
| OverflowError (msg : string).

Definition raise (e : Env) (f : failure) : DbError :=
  match f with
  | NotNull _ | DuplicateKey _ => IntegrityError (str_error e f)
  | NotABoolean _ | Unsupported _ => SQLAlchemyError (str_error e f)
  | TooLarge _ => OverflowError (str_error e f)
  end.

#[global] Instance failure_ret : MRet (sum failure) := fun _ x => inr x.
#[global] Instance failure_bind : MBind (sum failure) := fun _ _ f x =>
  match x with inl err => inl err | inr a => f a end.

Module Company.

Record t : Type := mk {
  id : string;
  name : pyval;
  description : pyval;
  logo_url : pyval;
  parent_id : pyval;
  organization_id : pyval;
  address : pyval;
  email : pyval;
  phone_number : pyval;
  website : pyval;
  created_at : option datetime;
  updated_at : option datetime;
  is_active : pyval;
  registration_number : pyval;
  tax_id : pyval;
  country : pyval;
  city : pyval;
  postal_code : pyval;
  employees_count : pyval
}.

#[global] Instance t_eq_dec : EqDecision t.
Proof. solve_decision. Defined.

(** The table [companies], in insertion order. *)
Abbreviation table := (list t).

Definition get_all (tbl : table) : list t := tbl.

Definition get_by_id (company_id : string) (tbl : table) : option t :=
  List.find (fun c => bool_decide (id c = company_id)) tbl.

Definition get_by_name (value : pyval) (tbl : table) : option t :=
  List.find (fun c => bool_decide (name c = value)) tbl.

(** *** What a column makes of a value

    The values SQLAlchemy and the driver hand to the database, and what the
    row holds afterwards. *)

Definition int64 (z : Z) : bool :=
  (-9223372036854775808 <=? z) && (z <=? 9223372036854775807).

(** A [String] column: a string is kept; a number becomes its text (the
    TEXT affinity of the column); the driver cannot bind a list or an
    object. *)
Definition bind_string (v : pyval) : failure + pyval :=
  match v with
  | PNone => inr PNone
  | PStr s => inr (PStr s)
  | PBool b => inr (PStr (if b then "1" else "0"))
  | PInt z => if int64 z then inr (PStr (py_str_of_int z)) else inl (TooLarge z)
  | POther => inl (Unsupported POther)
  end.

(** The white space SQLite skips around a number. *)
Definition is_ascii_space (c : ascii) : bool :=
  let n := nat_of_ascii c in ((9 <=? n) && (n <=? 13) || (n =? 32))%nat.

Fixpoint skip_spaces (l : list ascii) : list ascii :=
  match l with
  | c :: l' => if is_ascii_space c then skip_spaces l' else l
  | [] => []
  end.

(** A text that is a well-formed integer: white space, an optional sign,
    digits, white space. *)
Definition integer_literal (s : string) : option Z :=
  let body := rev (skip_spaces (rev (skip_spaces (list_ascii_of_string s)))) in
  let '(neg, digits) :=
    match body with
    | c :: r => if Ascii.eqb c "-" then (true, r)
                else if Ascii.eqb c "+" then (false, r) else (false, body)
    | [] => (false, body)
    end in
  match digits with
  | [] => None
  | _ =>
      if forallb is_digit digits then
        d ← NilEmpty.uint_of_string (string_of_list_ascii digits);
        Some (if neg then - Z.of_N (N.of_uint d) else Z.of_N (N.of_uint d))
      else None
  end.

(** An [Integer] column: an integer of 64 bits is kept, a larger one makes
    the driver raise [OverflowError]; a text that is an integer of 64 bits
    becomes that integer (the INTEGER affinity of the column), any other
    text is left to the oracle. *)
Definition bind_integer (e : Env) (v : pyval) : failure + pyval :=
  match v with
  | PNone => inr PNone
  | PInt z => if int64 z then inr (PInt z) else inl (TooLarge z)
  | PBool b => inr (PInt (if b then 1 else 0))
  | PStr s =>
      match integer_literal s with
      | Some z => if int64 z then inr (PInt z) else inr (numeric_affinity e s)
      | None => inr (numeric_affinity e s)
      end
  | POther => inl (Unsupported POther)
  end.

(** A [Boolean] column: [None], [True], [False], and the integers equal to
    them; anything else is refused before the statement is sent. *)
Definition bind_boolean (v : pyval) : failure + pyval :=
  match v with
  | PNone => inr PNone
  | PBool b => inr (PBool b)
  | PInt 0 => inr (PBool false)
  | PInt 1 => inr (PBool true)
  | _ => inl (NotABoolean v)
  end.

(** The row the database holds for an instance: the [Boolean] type sees
    its value first, then the driver binds the values in the order of the
    columns. *)
Definition stored (e : Env) (c : t) : failure + t :=
  is_active' ← bind_boolean (is_active c);
  name' ← bind_string (name c);
  description' ← bind_string (description c);
  logo_url' ← bind_string (logo_url c);
  parent_id' ← bind_string (parent_id c);
  organization_id' ← bind_string (organization_id c);
  address' ← bind_string (address c);
  email' ← bind_string (email c);
  phone_number' ← bind_string (phone_number c);
  website' ← bind_string (website c);
  registration_number' ← bind_string (registration_number c);
  tax_id' ← bind_string (tax_id c);
  country' ← bind_string (country c);
  city' ← bind_string (city c);
  postal_code' ← bind_string (postal_code c);
  employees_count' ← bind_integer e (employees_count c);
  mret {|
    id := id c;
    name := name';
    description := description';
    logo_url := logo_url';
    parent_id := parent_id';
    organization_id := organization_id';
    address := address';
    email := email';
    phone_number := phone_number';
    website := website';
    created_at := created_at c;
    updated_at := updated_at c;
    is_active := is_active';
    registration_number := registration_number';
    tax_id := tax_id';
    country := country';
    city := city';
    postal_code := postal_code';
    employees_count := employees_count'
  |}.

(** [default=True]: the column default replaces a [None]. *)
Definition with_default_is_active (c : t) : t := {|
  id := id c;
  name := name c;
  description := description c;
  logo_url := logo_url c;
  parent_id := parent_id c;
  organization_id := organization_id c;
  address := address c;
  email := email c;
  phone_number := phone_number c;
  website := website c;
  created_at := created_at c;
  updated_at := updated_at c;
  is_active := if is_not_none (is_active c) then is_active c else PBool true;
  registration_number := registration_number c;
  tax_id := tax_id c;
  country := country c;
  city := city c;
  postal_code := postal_code c;
  employees_count := employees_count c
|}.

(** [db.session.add(company); db.session.commit()]: the values are bound,
    then the INSERT checks the constraints the columns declare.  The
    result is the stored row and the table with it. *)
Definition insert_row (e : Env) (c : t) (tbl : table)
  : DbError + (t * table) :=
  match stored e (with_default_is_active c) with
  | inl f => inl (raise e f)
  | inr row =>
      if negb (is_not_none (name row)) then inl (raise e (NotNull "name"))
      else if bool_decide (is_Some (get_by_id (id row) tbl))
      then inl (raise e (DuplicateKey (id row)))
      else inr (row, tbl ++ [row])%list
  end.

(** The instance [Company.create] builds: [cls(id=company_id, name=name,
    ..., organization_id=None, ..., created_at=db.func.now(),
    updated_at=db.func.now())], with the defaults of the keyword arguments
    ([None] everywhere, [True] for [is_active]).  [k] is the index at which
    the oracles are read. *)
Definition new (e : Env) (k : nat) (name : pyval) (kw : kwargs) : t :=
  let company_id := uuid4 e k in
  {|
    id := company_id;
    name := name;
    description := kwarg "description" PNone kw;
    logo_url := kwarg "logo_url" PNone kw;
    parent_id := kwarg "parent_id" PNone kw;
    address := kwarg "address" PNone kw;
    email := kwarg "email" PNone kw;
    phone_number := kwarg "phone_number" PNone kw;
    website := kwarg "website" PNone kw;
    registration_number := kwarg "registration_number" PNone kw;
    tax_id := kwarg "tax_id" PNone kw;
    country := kwarg "country" PNone kw;
    city := kwarg "city" PNone kw;
    is_active := kwarg "is_active" (PBool true) kw;
    employees_count := kwarg "employees_count" PNone kw;
    organization_id := PNone;
    postal_code := kwarg "postal_code" PNone kw;
    created_at := Some (now e k);
    updated_at := Some (now e k)
  |}.

(** [Company.create(name, description=None, ..., is_active=True,
    employees_count=None)]: the instance is added to the session and
    committed. *)
Definition create (e : Env) (k : nat) (name : pyval) (kw : kwargs)
    (tbl : table) : DbError + (t * table) :=
  insert_row e (new e k name kw) tbl.

(** [if x is not None: self.x = x] *)
Definition assign_if_not_none (x : pyval) (current : pyval) : pyval :=
  if is_not_none x then x else current.

(** The attribute assignments of [Company.update]. *)
Definition update_attrs (self : t) (kw : kwargs) (stamp : datetime) : t := {|
  id := id self;
  name := assign_if_not_none (kwarg "name" PNone kw) (name self);
  description :=
    assign_if_not_none (kwarg "description" PNone kw) (description self);
  logo_url := assign_if_not_none (kwarg "logo_url" PNone kw) (logo_url self);
  parent_id :=
    assign_if_not_none (kwarg "parent_id" PNone kw) (parent_id self);
  organization_id :=
    assign_if_not_none (kwarg "organization_id" PNone kw)
      (organization_id self);
  address := assign_if_not_none (kwarg "address" PNone kw) (address self);
  email := assign_if_not_none (kwarg "email" PNone kw) (email self);
  phone_number :=
    assign_if_not_none (kwarg "phone_number" PNone kw) (phone_number self);
  website := assign_if_not_none (kwarg "website" PNone kw) (website self);
  registration_number :=
    assign_if_not_none (kwarg "registration_number" PNone kw)
      (registration_number self);
  tax_id := assign_if_not_none (kwarg "tax_id" PNone kw) (tax_id self);
  country := assign_if_not_none (kwarg "country" PNone kw) (country self);
  city := assign_if_not_none (kwarg "city" PNone kw) (city self);
  postal_code :=
    assign_if_not_none (kwarg "postal_code" PNone kw) (postal_code self);
  employees_count :=
    assign_if_not_none (kwarg "employees_count" PNone kw)
      (employees_count self);
  is_active :=
    assign_if_not_none (kwarg "is_active" PNone kw) (is_active self);
  created_at := created_at self;
  updated_at := Some stamp
|}.

(** The UPDATE of the row whose primary key is that of [c]. *)
Fixpoint replace_row (c : t) (tbl : table) : table :=
  match tbl with
  | [] => []
  | r :: tbl' =>
      if bool_decide (id r = id c) then c :: tbl' else r :: replace_row c tbl'
  end.

(** The values an UPDATE binds: those of the attributes that have
    changed. *)
Definition changed (bind : pyval -> failure + pyval) (old new : pyval)
  : failure + pyval :=
  if decide (new = old) then inr old else bind new.

Definition flushed (e : Env) (old new : t) : failure + t :=
  is_active' ← changed bind_boolean (is_active old) (is_active new);
  name' ← changed bind_string (name old) (name new);
  description' ← changed bind_string (description old) (description new);
  logo_url' ← changed bind_string (logo_url old) (logo_url new);
  parent_id' ← changed bind_string (parent_id old) (parent_id new);
  organization_id' ←
    changed bind_string (organization_id old) (organization_id new);
  address' ← changed bind_string (address old) (address new);
  email' ← changed bind_string (email old) (email new);
  phone_number' ← changed bind_string (phone_number old) (phone_number new);
  website' ← changed bind_string (website old) (website new);
  registration_number' ←
    changed bind_string (registration_number old) (registration_number new);
  tax_id' ← changed bind_string (tax_id old) (tax_id new);
  country' ← changed bind_string (country old) (country new);
  city' ← changed bind_string (city old) (city new);
  postal_code' ← changed bind_string (postal_code old) (postal_code new);
  employees_count' ←
    changed (bind_integer e) (employees_count old) (employees_count new);
  mret {|
    id := id new;
    name := name';
    description := description';
    logo_url := logo_url';
    parent_id := parent_id';
    organization_id := organization_id';
    address := address';
    email := email';
    phone_number := phone_number';
    website := website';
    created_at := created_at new;
    updated_at := updated_at new;
    is_active := is_active';
    registration_number := registration_number';
    tax_id := tax_id';
    country := country';
    city := city';
    postal_code := postal_code';
    employees_count := employees_count'
  |}.

(** The commit of an update: the changed values are bound, then the UPDATE
    checks the constraints.  The result is the stored row and the table
    with it. *)
Definition update_row (e : Env) (old new : t) (tbl : table)
  : DbError + (t * table) :=
  match flushed e old new with
  | inl f => inl (raise e f)
  | inr row =>
      if negb (is_not_none (name row)) then inl (raise e (NotNull "name"))
      else inr (row, replace_row row tbl)
  end.

(** [self.update] called with the keyword arguments [kw]: the assignments,
    then [db.session.commit()]. *)
Definition update (e : Env) (self : t) (kw : kwargs) (stamp : datetime)
    (tbl : table) : DbError + (t * table) :=
  update_row e self (update_attrs self kw stamp) tbl.

(** [self.delete()] *)
Fixpoint delete_row (c : t) (tbl : table) : table :=
  match tbl with
  | [] => []
  | r :: tbl' =>
      if bool_decide (id r = id c) then tbl' else r :: delete_row c tbl'
  end.

Definition delete (self : t) (tbl : table) : DbError + table :=
  inr (delete_row self tbl).

End Company.

(** ** app/schemas.py *)

(** What a [@validates] method does: it returns, or raises
    [ValidationError(msg)]. *)
Inductive validation : Type :=
| Valid
| ValidationError (msg : string).

(** A value handed to a validator of a string column is a [str] or [None]. *)
Definition as_str (v : pyval) : option string :=
  match v with PStr s => Some s | _ => None end.

Definition as_int (v : pyval) : option Z :=
  match v with PInt z => Some z | _ => None end.

Definition of_str (v : option string) : pyval :=
  match v with Some s => PStr s | None => PNone end.

Module CompanySchema.

Section Validators.
Variable tbl : Company.table.

Definition validate_name (value : option string) : validation :=
  if negb (truthy value) then ValidationError "Name cannot be empty."
  else if bool_decide (is_Some (Company.get_by_name (of_str value) tbl))
  then ValidationError "Name must be unique."
  else if (100 <? len value)%nat
  then ValidationError "Name cannot exceed 100 characters."
  else Valid.

Definition validate_description (value : option string) : validation :=
  if truthy value && (500 <? len value)%nat
  then ValidationError "Description cannot exceed 500 characters."
  else Valid.

Definition validate_logo_url (value : option string) : validation :=
  if truthy value && negb (startswith_http (default "" value))
  then ValidationError "Logo URL must be a valid URL."
  else if truthy value && (255 <? len value)%nat
  then ValidationError "Logo URL cannot exceed 255 characters."
  else Valid.

(** The [isinstance(value, str)] test of the source always succeeds on the
    [str] a string field hands over. *)
Definition validate_parent_id (value : option string) : validation :=
  if truthy value then
    match Company.get_by_id (default "" value) tbl with
    | None => ValidationError "Parent company does not exist."
    | Some _ => Valid
    end
  else Valid.

Definition validate_address (value : option string) : validation :=
  if truthy value && (255 <? len value)%nat
  then ValidationError "Address cannot exceed 255 characters."
  else Valid.

Definition validate_email (value : option string) : validation :=
  if truthy value && (100 <? len value)%nat
  then ValidationError "Email cannot exceed 100 characters."
  else if truthy value && negb (contains_char "@" (default "" value))
  then ValidationError "Email must be a valid email address."
  else Valid.

Definition validate_phone_number (value : option string) : validation :=
  if truthy value && (20 <? len value)%nat
  then ValidationError "Phone number cannot exceed 20 characters."
  else Valid.

Definition validate_website (value : option string) : validation :=
  if truthy value && negb (startswith_http (default "" value))
  then ValidationError "Website must be a valid URL."
  else if truthy value && (100 <? len value)%nat
  then ValidationError "Website cannot exceed 100 characters."
  else Valid.

Definition validate_registration_number (value : option string) : validation :=
  if truthy value && (100 <? len value)%nat
  then ValidationError "Registration number cannot exceed 100 characters."
  else Valid.

Definition validate_tax_id (value : option string) : validation :=
  if truthy value && (50 <? len value)%nat
  then ValidationError "Tax ID cannot exceed 50 characters."
  else Valid.

Definition validate_country (value : option string) : validation :=
  if truthy value && (100 <? len value)%nat
  then ValidationError "Country cannot exceed 100 characters."
  else Valid.

Definition validate_city (value : option string) : validation :=
  if truthy value && (100 <? len value)%nat
  then ValidationError "City cannot exceed 100 characters."
  else Valid.

Definition validate_postal_code (value : option string) : validation :=
  if truthy value && (20 <? len value)%nat
  then ValidationError "Postal code cannot exceed 20 characters."
  else Valid.

(** The value of an integer field is an [int] or [None], so the
    [isinstance(value, int)] test of the source always succeeds. *)
Definition validate_employees_count (value : option Z) : validation :=
  match value with
  | Some z =>
      if z <? 0
      then ValidationError "Employees count must be a non-negative integer."
      else Valid
  | None => Valid
  end.

End Validators.

(** *** The fields of the schema

    [SQLAlchemyAutoSchema] derives one field per column of the model
    ([include_fk] keeps [parent_id]); [id], [created_at] and [updated_at]
    are [dump_only] and therefore not loadable.  A column that is not
    nullable and has no default is required; a nullable column accepts
    [None]; a string column of length [n] carries a maximum length of [n]. *)

Inductive column_type : Type :=
| ColString (length : nat)
| ColInteger
| ColBoolean.

Record field : Type := mkField {
  field_name : string;
  field_type : column_type;
  required : bool;
  allow_none : bool;
  (** the [@validates(field_name)] method, when the schema has one *)
  validator : option (Company.table -> pyval -> validation)
}.

Definition on_str (f : Company.table -> option string -> validation)
  : option (Company.table -> pyval -> validation) :=
  Some (fun tbl v => f tbl (as_str v)).

Definition load_fields : list field := [
  mkField "name" (ColString 100) true false (on_str validate_name);
  mkField "description" (ColString 500) false true
    (on_str (fun _ => validate_description));
  mkField "logo_url" (ColString 255) false true
    (on_str (fun _ => validate_logo_url));
  mkField "parent_id" (ColString 100) false true (on_str validate_parent_id);
  mkField "organization_id" (ColString 100) false true None;
  mkField "address" (ColString 255) false true
    (on_str (fun _ => validate_address));
  mkField "email" (ColString 100) false true (on_str (fun _ => validate_email));
  mkField "phone_number" (ColString 20) false true
    (on_str (fun _ => validate_phone_number));
  mkField "website" (ColString 100) false true
    (on_str (fun _ => validate_website));
  mkField "is_active" ColBoolean false true None;
  mkField "registration_number" (ColString 100) false true
    (on_str (fun _ => validate_registration_number));
  mkField "tax_id" (ColString 50) false true
    (on_str (fun _ => validate_tax_id));
  mkField "country" (ColString 100) false true
    (on_str (fun _ => validate_country));
  mkField "city" (ColString 100) false true (on_str (fun _ => validate_city));
  mkField "postal_code" (ColString 20) false true
    (on_str (fun _ => validate_postal_code));
  mkField "employees_count" ColInteger false true
    (Some (fun _ v => validate_employees_count (as_int v)))
].

(** *** [Schema.load]

    The library's deserialisation, as far as this schema uses it. *)

Definition truthy_strings : list string :=
  ["t"; "T"; "true"; "True"; "TRUE"; "on"; "On"; "ON";
   "y"; "Y"; "yes"; "Yes"; "YES"; "1"].

Definition falsy_strings : list string :=
  ["f"; "F"; "false"; "False"; "FALSE"; "off"; "Off"; "OFF";
   "n"; "N"; "no"; "No"; "NO"; "0"].

Definition nat_to_string (n : nat) : string :=
  NilZero.string_of_uint (Nat.to_uint n).

(** The outcome of one field: absent from the input, rejected with
    messages, or a value. *)
Inductive deserialized : Type :=
| Missing
| Invalid (msgs : list string)
| Value (v : pyval).

#[global] Instance deserialized_eq_dec : EqDecision deserialized.
Proof. solve_decision. Defined.

Definition deserialize_value (ty : column_type) (v : pyval) : deserialized :=
  match ty, v with
  | ColString n, PStr s =>
      if (n <? String.length s)%nat
      then Invalid ["Longer than maximum length " +:+ nat_to_string n +:+ "."]
      else Value (PStr s)
  | ColString _, _ => Invalid ["Not a valid string."]
  | ColInteger, PInt z => Value (PInt z)
  | ColInteger, PStr s =>
      match py_int_of_string s with
      | Some z => Value (PInt z)
      | None => Invalid ["Not a valid integer."]
      end
  | ColInteger, _ => Invalid ["Not a valid integer."]
  | ColBoolean, PBool b => Value (PBool b)
  | ColBoolean, PInt z =>
      if bool_decide (z = 1) then Value (PBool true)
      else if bool_decide (z = 0) then Value (PBool false)
      else Invalid ["Not a valid boolean."]
  | ColBoolean, PStr s =>
      if bool_decide (s ∈ truthy_strings) then Value (PBool true)
      else if bool_decide (s ∈ falsy_strings) then Value (PBool false)
      else Invalid ["Not a valid boolean."]
  | ColBoolean, _ => Invalid ["Not a valid boolean."]
  end.

Definition deserialize (f : field) (partial : bool) (raw : option pyval)
  : deserialized :=
  match raw with
  | None =>
      if required f && negb partial
      then Invalid ["Missing data for required field."]
      else Missing
  | Some PNone =>
      if allow_none f then Value PNone else Invalid ["Field may not be null."]
  | Some v => deserialize_value (field_type f) v
  end.

(** A field that deserialised is then passed to its [@validates] method. *)
Definition load_field (tbl : Company.table) (partial : bool) (f : field)
    (d : pydict) : deserialized :=
  match deserialize f partial (d !! Some (field_name f)) with
  | Value v =>
      match validator f with
      | Some check =>
          match check tbl v with
          | Valid => Value v
          | ValidationError msg => Invalid [msg]
          end
      | None => Value v
      end
  | r => r
  end.

Abbreviation messages := (gmap pykey (list string)).

(** The error store: the messages of a rejected field go under its name. *)
Definition add_error (tbl : Company.table) (partial : bool) (d : pydict)
    (f : field) (acc : messages) : messages :=
  match load_field tbl partial f d with
  | Invalid msgs => <[Some (field_name f) := msgs]> acc
  | _ => acc
  end.

Definition field_errors (tbl : Company.table) (partial : bool) (d : pydict)
  : messages :=
  foldr (add_error tbl partial d) ∅ load_fields.

(** Keys of the input that are no loadable field ([unknown = RAISE]). *)
Definition unknown_errors (d : pydict) : messages :=
  (fun _ => ["Unknown field."]) <$>
  filter (fun kv => kv.1 ∉ (Some ∘ field_name) <$> load_fields) d.

Definition add_value (tbl : Company.table) (partial : bool) (d : pydict)
    (f : field) (acc : kwargs) : kwargs :=
  match load_field tbl partial f d with
  | Value v => <[field_name f := v]> acc
  | _ => acc
  end.

Definition loaded_data (tbl : Company.table) (partial : bool) (d : pydict)
  : kwargs :=
  foldr (add_value tbl partial d) ∅ load_fields.

(** [company_schema.load(data, partial=...)]: the error messages of the
    [ValidationError] it raises, or the attributes of the instance it
    builds ([load_instance]; the instance is not added to the session). *)
Definition load (tbl : Company.table) (partial : bool) (data : payload)
  : messages + kwargs :=
  match data with
  | NotObj _ => inl {[ Some "_schema" := ["Invalid input type."] ]}
  | Obj d =>
      let errors := field_errors tbl partial d ∪ unknown_errors d in
      if decide (errors = ∅) then inr (loaded_data tbl partial d)
      else inl errors
  end.

(** [validated.x]: an attribute the input did not set is [None]. *)
Definition attr (k : string) (validated : kwargs) : pyval :=
  kwarg k PNone validated.

End CompanySchema.

(** ** app/resources/companies.py *)

(** The JSON bodies the resources return.  [Uncaught] is not returned by
    a resource: it stands for an exception that leaves the method, which
    the framework answers with status 500. *)
Inductive body : Type :=
| ValidationErrors (errors : CompanySchema.messages)
| Message (message : string)
| IntegrityErrorBody (error : string)
| DatabaseErrorBody (error : string)
| Uncaught (exception : string)
| Dump (company : Company.t)
| DumpMany (companies : list Company.t)
| ImportErrors (count : nat) (errors : list (nat * CompanySchema.messages))
| ImportSuccess (count : nat)
| CsvFile (text : string).

Abbreviation response := (body * nat)%type.

(** [json_data['name']]: the key is present whenever the load that
    precedes the access has succeeded. *)
Definition getitem (k : string) (d : pydict) : pyval := dict_get k d.

(** The object of a payload that passed [load]. *)
Definition obj_of (data : payload) : pydict :=
  match data with Obj d => d | NotObj _ => ∅ end.

(** [except IntegrityError ... except SQLAlchemyError ...]: no clause
    catches an [OverflowError]. *)
Definition db_error_response (err : DbError) : response :=
  match err with
  | IntegrityError msg => (IntegrityErrorBody msg, 400%nat)
  | SQLAlchemyError msg => (DatabaseErrorBody msg, 500%nat)
  | OverflowError msg => (Uncaught msg, 500%nat)
  end.

(** The keyword arguments [post] and [put] pass on, besides [name]. *)
Definition full_arguments (json_data : pydict) : list (string * pyval) := [
  ("description", dict_get "description" json_data);
  ("address", dict_get "address" json_data);
  ("phone_number", dict_get "phone_number" json_data);
  ("email", dict_get "email" json_data);
  ("website", dict_get "website" json_data);
  ("logo_url", dict_get "logo_url" json_data);
  ("registration_number", dict_get "registration_number" json_data);
  ("tax_id", dict_get "tax_id" json_data);
  ("country", dict_get "country" json_data);
  ("city", dict_get "city" json_data);
  ("postal_code", dict_get "postal_code" json_data);
  ("employees_count", dict_get_or "employees_count" (PInt 0) json_data)
].

Definition full_kwargs (json_data : pydict) : kwargs :=
  list_to_map (full_arguments json_data).

Module CompanyListResource.

Definition get (tbl : Company.table) : response * Company.table :=
  ((DumpMany (Company.get_all tbl), 200%nat), tbl).

Definition post (e : Env) (json_data : payload) (tbl : Company.table)
  : response * Company.table :=
  match CompanySchema.load tbl false json_data with
  | inl messages => ((ValidationErrors messages, 400%nat), tbl)
  | inr _ =>
      let d := obj_of json_data in
      match Company.create e 0 (getitem "name" d) (full_kwargs d) tbl with
      | inl err => (db_error_response err, tbl)
      | inr (company, tbl') => ((Dump company, 201%nat), tbl')
      end
  end.

End CompanyListResource.

Module CompanyResource.

Definition get (company_id : string) (tbl : Company.table)
  : response * Company.table :=
  match Company.get_by_id company_id tbl with
  | None => ((Message "Company not found", 404%nat), tbl)
  | Some company => ((Dump company, 200%nat), tbl)
  end.

Definition put (e : Env) (company_id : string) (json_data : payload)
    (tbl : Company.table) : response * Company.table :=
  match CompanySchema.load tbl false json_data with
  | inl messages => ((ValidationErrors messages, 400%nat), tbl)
  | inr _ =>
      match Company.get_by_id company_id tbl with
      | None => ((Message "Company not found", 404%nat), tbl)
      | Some company =>
          let d := obj_of json_data in
          match Company.update e company
                  (<["name" := getitem "name" d]> (full_kwargs d))
                  (now e 0) tbl with
          | inl err => (db_error_response err, tbl)
          | inr (company', tbl') => ((Dump company', 200%nat), tbl')
          end
      end
  end.

(** The keys [patch] copies into [update_kwargs], each with the expression
    it assigns. *)
Definition patch_keys : list (string * (pydict -> pyval)) := [
  ("name", getitem "name");
  ("description", dict_get "description");
  ("address", dict_get "address");
  ("phone_number", dict_get "phone_number");
  ("email", dict_get "email");
  ("website", dict_get "website");
  ("logo_url", dict_get "logo_url");
  ("registration_number", dict_get "registration_number");
  ("tax_id", dict_get "tax_id");
  ("country", dict_get "country");
  ("city", dict_get "city");
  ("postal_code", dict_get "postal_code");
  ("employees_count", dict_get_or "employees_count" (PInt 0));
  ("is_active", dict_get_or "is_active" (PBool true));
  ("organization_id", dict_get "organization_id");
  ("parent_id", dict_get "parent_id")
].

(** [if k in json_data: update_kwargs[k] = ...] *)
Definition patch_step (json_data : pydict) (update_kwargs : kwargs)
    (entry : string * (pydict -> pyval)) : kwargs :=
  let '(k, rhs) := entry in
  if has_key k json_data then <[k := rhs json_data]> update_kwargs
  else update_kwargs.

(** The dict [update_kwargs] once every key has had its turn. *)
Definition update_kwargs (json_data : pydict) : kwargs :=
  foldl (patch_step json_data) ∅ patch_keys.

Definition patch (e : Env) (company_id : string) (json_data : payload)
    (tbl : Company.table) : response * Company.table :=
  match CompanySchema.load tbl true json_data with
  | inl messages => ((ValidationErrors messages, 400%nat), tbl)
  | inr _ =>
      match Company.get_by_id company_id tbl with
      | None => ((Message "Company item not found", 404%nat), tbl)
      | Some company =>
          match Company.update e company (update_kwargs (obj_of json_data))
                  (now e 0) tbl with
          | inl err => (db_error_response err, tbl)
          | inr (company', tbl') => ((Dump company', 200%nat), tbl')
          end
      end
  end.

Definition delete (company_id : string) (tbl : Company.table)
  : response * Company.table :=
  match Company.get_by_id company_id tbl with
  | None => ((Message "Company not found", 404%nat), tbl)
  | Some company =>
      match Company.delete company tbl with
      | inl (IntegrityError msg) | inl (SQLAlchemyError msg) =>
          ((DatabaseErrorBody msg, 500%nat), tbl)
      | inl (OverflowError msg) => ((Uncaught msg, 500%nat), tbl)
      | inr tbl' => ((Message "Company deleted successfully", 204%nat), tbl')
      end
  end.

End CompanyResource.

(** ** The [csv] module, excel dialect

    [csv.writer] with minimal quoting, and [csv.reader] fed with a list of
    lines, as [csv.DictReader] drives it.  A text is a list of
    characters. *)

Module csv.

Definition delimiter : ascii := ",".
Definition quotechar : ascii := "034".
Definition CR : ascii := "013".
Definition LF : ascii := "010".

(** *** The writer *)

Definition is_special (c : ascii) : bool :=
  bool_decide (c = delimiter) || bool_decide (c = quotechar)
  || bool_decide (c = CR) || bool_decide (c = LF).

Definition needs_quoting (s : list ascii) : bool := existsb is_special s.

Definition double_quotes (s : list ascii) : list ascii :=
  flat_map (fun c => if bool_decide (c = quotechar) then [c; c] else [c]) s.

Definition write_field (s : list ascii) : list ascii :=
  if needs_quoting s
  then (quotechar :: double_quotes s ++ [quotechar])%list
  else s.

Fixpoint join_fields (fields : list (list ascii)) : list ascii :=
  match fields with
  | [] => []
  | [f] => f
  | f :: rest => (f ++ delimiter :: join_fields rest)%list
  end.

(** [writer.writerow(cells)]: a row made of one empty cell is written as a
    pair of quotes; every row ends with the line terminator. *)
Definition writerow (cells : list string) : list ascii :=
  match cells with
  | [EmptyString] => [quotechar; quotechar; CR; LF]
  | _ =>
      (join_fields (write_field ∘ list_ascii_of_string <$> cells)
       ++ [CR; LF])%list
  end.

(** *** The reader *)

Inductive parser_state : Type :=
| START_RECORD
| START_FIELD
| IN_FIELD
| IN_QUOTED_FIELD
| QUOTE_IN_QUOTED_FIELD
| EAT_CRNL.

#[global] Instance parser_state_eq_dec : EqDecision parser_state.
Proof. solve_decision. Defined.

(** The reader's registers: the state, the fields saved so far (last one
    first) and the characters of the current field (last one first). *)
Record reader : Type := mkReader {
  state : parser_state;
  fields : list string;
  field : list ascii
}.

Definition parse_reset : reader := mkReader START_RECORD [] [].

Definition parse_add_char (c : ascii) (st : parser_state) (r : reader)
  : reader :=
  mkReader st (fields r) (c :: field r).

Definition parse_save_field (st : parser_state) (r : reader) : reader :=
  mkReader st (string_of_list_ascii (rev (field r)) :: fields r) [].

Definition set_state (st : parser_state) (r : reader) : reader :=
  mkReader st (fields r) (field r).

Definition is_newline (c : ascii) : bool :=
  bool_decide (c = LF) || bool_decide (c = CR).

(** [parse_process_char]: one step of the automaton; [None] as character is
    the end of the line, [None] as result is [csv.Error]. *)
Definition parse_process_char (r : reader) (c : option ascii)
  : option reader :=
  let start_field (r : reader) :=
    match c with
    | None => Some (parse_save_field START_RECORD r)
    | Some ch =>
        if is_newline ch then Some (parse_save_field EAT_CRNL r)
        else if bool_decide (ch = quotechar)
        then Some (set_state IN_QUOTED_FIELD r)
        else if bool_decide (ch = delimiter)
        then Some (parse_save_field START_FIELD r)
        else Some (parse_add_char ch IN_FIELD r)
    end in
  match state r with
  | START_RECORD =>
      match c with
      | None => Some r
      | Some ch =>
          if is_newline ch then Some (set_state EAT_CRNL r)
          else start_field r
      end
  | START_FIELD => start_field r
  | IN_FIELD =>
      match c with
      | None => Some (parse_save_field START_RECORD r)
      | Some ch =>
          if is_newline ch then Some (parse_save_field EAT_CRNL r)
          else if bool_decide (ch = delimiter)
          then Some (parse_save_field START_FIELD r)
          else Some (parse_add_char ch IN_FIELD r)
      end
  | IN_QUOTED_FIELD =>
      match c with
      | None => Some r
      | Some ch =>
          if bool_decide (ch = quotechar)
          then Some (set_state QUOTE_IN_QUOTED_FIELD r)
          else Some (parse_add_char ch IN_QUOTED_FIELD r)
      end
  | QUOTE_IN_QUOTED_FIELD =>
      match c with
      | None => Some (parse_save_field START_RECORD r)
      | Some ch =>
          if bool_decide (ch = quotechar)
          then Some (parse_add_char ch IN_QUOTED_FIELD r)
          else if bool_decide (ch = delimiter)
          then Some (parse_save_field START_FIELD r)
          else if is_newline ch then Some (parse_save_field EAT_CRNL r)
          else Some (parse_add_char ch IN_FIELD r)
      end
  | EAT_CRNL =>
      match c with
      | None => Some (set_state START_RECORD r)
      | Some ch => if is_newline ch then Some r else None
      end
  end.

(** The characters of one line, then the end of the line. *)
Fixpoint process_line (r : reader) (line : list ascii) : option reader :=
  match line with
  | [] => parse_process_char r None
  | c :: line' =>
      match parse_process_char r (Some c) with
      | Some r' => process_line r' line'
      | None => None
      end
  end.

(** The text of the [csv.Error] the automaton raises. *)
Definition unexpected_character : string :=
  "new-line character seen in unquoted field - do you need to open the file with newline=''?".

(** All the records of the reader, and the text of the [csv.Error] the
    iteration ended with, if any.  A record is complete when a line leaves
    the automaton in [START_RECORD]; when the lines run out inside a quoted
    field the pending field is saved and the record returned. *)
Fixpoint records_from (r : reader) (lines : list (list ascii))
  : list (list string) * option string :=
  match lines with
  | [] =>
      if bool_decide (field r ≠ []) || bool_decide (state r = IN_QUOTED_FIELD)
      then ([rev (fields (parse_save_field START_RECORD r))], None)
      else ([], None)
  | line :: lines' =>
      match process_line r line with
      | None => ([], Some unexpected_character)
      | Some r' =>
          if bool_decide (state r' = START_RECORD) then
            let '(recs, err) := records_from parse_reset lines' in
            (rev (fields r') :: recs, err)
          else records_from r' lines'
      end
  end.

Definition reader_records (lines : list (list ascii))
  : list (list string) * option string :=
  records_from parse_reset lines.

(** *** [csv.DictReader]

    The first record gives the field names; blank records are skipped; a
    short row is completed with [None], the surplus of a long row is filed
    under the key [None]. *)
Definition dict_of_row (fieldnames row : list string) : pydict :=
  let d : pydict :=
    foldl (fun d '(k, v) => <[Some k := PStr v]> d) ∅ (zip fieldnames row) in
  if (length fieldnames <? length row)%nat then <[None := POther]> d
  else foldl (fun d k => <[Some k := PNone]> d) d
             (drop (length row) fieldnames).

Definition DictReader (lines : list (list ascii))
  : list pydict * option string :=
  match reader_records lines with
  | ([], err) => ([], err)
  | (fieldnames :: rows, err) =>
      (dict_of_row fieldnames <$> filter (fun row => row ≠ []) rows, err)
  end.

End csv.

(** [str.splitlines()]: the line boundaries are line feed, carriage return
    (with a following line feed), vertical tab, form feed, the file, group
    and record separators and the next-line character. *)
Definition is_line_boundary (c : ascii) : bool :=
  let n := nat_of_ascii c in
  ((10 <=? n) && (n <=? 13) || (28 <=? n) && (n <=? 30) || (n =? 133))%nat.

Fixpoint splitlines_from (cur : list ascii) (text : list ascii)
  : list (list ascii) :=
  match text with
  | [] => match cur with [] => [] | _ => [rev cur] end
  | c :: text' =>
      if bool_decide (c = csv.CR) then
        match text' with
        | c' :: text'' =>
            if bool_decide (c' = csv.LF)
            then rev cur :: splitlines_from [] text''
            else rev cur :: splitlines_from [] text'
        | [] => [rev cur]
        end
      else if is_line_boundary c then rev cur :: splitlines_from [] text'
      else splitlines_from (c :: cur) text'
  end.

Definition splitlines (text : string) : list (list ascii) :=
  splitlines_from [] (list_ascii_of_string text).

(** ** app/resources/export_to.py *)

(** [datetime.isoformat()] of a naive time stamp. *)
Definition digit (n : N) : ascii := ascii_of_N (48 + n mod 10).

Definition pad2 (n : N) : list ascii := [digit (n / 10); digit n].

Definition pad4 (n : N) : list ascii :=
  [digit (n / 1000); digit (n / 100); digit (n / 10); digit n].

Definition pad6 (n : N) : list ascii :=
  [digit (n / 100000); digit (n / 10000); digit (n / 1000);
   digit (n / 100); digit (n / 10); digit n].

Definition isoformat (t : datetime) : string :=
  string_of_list_ascii
    (pad4 (year t) ++ "-"%char :: pad2 (month t) ++ "-"%char :: pad2 (day t)
     ++ "T"%char :: pad2 (hour t) ++ ":"%char :: pad2 (minute t)
     ++ ":"%char :: pad2 (second t)
     ++ (if (microsecond t =? 0)%N then []
         else "."%char :: pad6 (microsecond t)))%list.

(** What the writer puts in a cell: nothing for [None], the string itself,
    [str(value)] otherwise.  A list or a dict never passes the schema, so
    the resources never store one; its cell is left empty here. *)
Definition cell_text (v : pyval) : string :=
  match v with
  | PNone => ""
  | PBool true => "True"
  | PBool false => "False"
  | PInt z => py_str_of_int z
  | PStr s => s
  | POther => ""
  end.

Module ExportCSVResource.

Definition header : list string := [
  "id"; "name"; "description"; "logo_url"; "parent_id";
  "organization_id"; "address"; "email"; "phone_number"; "website";
  "created_at"; "updated_at"; "is_active"; "registration_number";
  "tax_id"; "country"; "city"; "postal_code"; "employees_count"
].

Definition data_row (company : Company.t) : list string := [
  Company.id company;
  cell_text (Company.name company);
  cell_text (Company.description company);
  cell_text (Company.logo_url company);
  cell_text (Company.parent_id company);
  cell_text (Company.organization_id company);
  cell_text (Company.address company);
  cell_text (Company.email company);
  cell_text (Company.phone_number company);
  cell_text (Company.website company);
  from_option isoformat "" (Company.created_at company);
  from_option isoformat "" (Company.updated_at company);
  cell_text (Company.is_active company);
  cell_text (Company.registration_number company);
  cell_text (Company.tax_id company);
  cell_text (Company.country company);
  cell_text (Company.city company);
  cell_text (Company.postal_code company);
  cell_text (Company.employees_count company)
].

(** [output.getvalue()] *)
Definition getvalue (companies : list Company.t) : string :=
  string_of_list_ascii
    (csv.writerow header ++ concat (csv.writerow ∘ data_row <$> companies))%list.

Definition get (tbl : Company.table) : response * Company.table :=
  ((CsvFile (getvalue (Company.get_all tbl)), 200%nat), tbl).

End ExportCSVResource.

(** ** app/resources/import_from.py *)

(** The keyword arguments both importers pass to [Company.create], besides
    [name]. *)
Definition import_arguments (validated : kwargs) : list (string * pyval) := [
  ("description", CompanySchema.attr "description" validated);
  ("logo_url", CompanySchema.attr "logo_url" validated);
  ("parent_id", CompanySchema.attr "parent_id" validated);
  ("address", CompanySchema.attr "address" validated);
  ("email", CompanySchema.attr "email" validated);
  ("phone_number", CompanySchema.attr "phone_number" validated);
  ("website", CompanySchema.attr "website" validated);
  ("registration_number", CompanySchema.attr "registration_number" validated);
  ("tax_id", CompanySchema.attr "tax_id" validated);
  ("country", CompanySchema.attr "country" validated);
  ("city", CompanySchema.attr "city" validated);
  ("postal_code", CompanySchema.attr "postal_code" validated);
  ("employees_count", CompanySchema.attr "employees_count" validated)
].

Definition import_kwargs (validated : kwargs) : kwargs :=
  list_to_map (import_arguments validated).

(** The state of the import loop. *)
Record progress : Type := mkProgress {
  count : nat;
  errors : list (nat * CompanySchema.messages);
  rows : Company.table
}.

(** The body of the [for idx, item in enumerate(...)] loop, shared by the
    two importers: a [ValidationError] is recorded under the index of the
    row, any other exception leaves the loop. *)
Fixpoint import_loop (e : Env) (idx : nat) (items : list payload)
    (p : progress) : DbError * Company.table + progress :=
  match items with
  | [] => inr p
  | item :: items' =>
      match CompanySchema.load (rows p) false item with
      | inr validated =>
          match Company.create e (count p)
                  (CompanySchema.attr "name" validated)
                  (import_kwargs validated) (rows p) with
          | inr (_, tbl') =>
              import_loop e (S idx) items'
                (mkProgress (S (count p)) (errors p) tbl')
          | inl err => inl (err, rows p)
          end
      | inl messages =>
          import_loop e (S idx) items'
            (mkProgress (count p) (errors p ++ [(idx, messages)])%list (rows p))
      end
  end.

(** The report both importers build once the loop is over. *)
Definition import_report (p : progress) : response :=
  match errors p with
  | [] => (ImportSuccess (count p), 200%nat)
  | _ =>
      (ImportErrors (count p) (errors p),
       if (count p =? 0)%nat then 400%nat else 207%nat)
  end.

Definition import_items (e : Env) (items : list payload)
    (tbl : Company.table) : response * Company.table :=
  match import_loop e 0 items (mkProgress 0 [] tbl) with
  | inr p => (import_report p, rows p)
  | inl (IntegrityError msg, tbl') | inl (SQLAlchemyError msg, tbl') =>
      ((Message ("Database error: " +:+ msg), 400%nat), tbl')
  | inl (OverflowError msg, tbl') => ((Uncaught msg, 500%nat), tbl')
  end.

(** What [json.load(file)] makes of the upload: it raises
    [JSONDecodeError], whose text is [msg], or returns a list or another
    value. *)
Inductive json_document : Type :=
| JSONDecodeError (msg : string)
| JsonArray (items : list payload)
| JsonValue.

Module ImportJSONResource.

Record upload : Type := mkUpload {
  filename : string;
  document : json_document
}.

(** [file] is [request.files.get('file')]. *)
Definition post (e : Env) (file : option upload) (tbl : Company.table)
  : response * Company.table :=
  match file with
  | None => ((Message "No file part in the request.", 400%nat), tbl)
  | Some file =>
      if bool_decide (filename file = "")
      then ((Message "No selected file.", 400%nat), tbl)
      else
        match document file with
        | JSONDecodeError msg =>
            ((Message ("Invalid JSON file: " +:+ msg), 400%nat), tbl)
        | JsonValue =>
            ((Message "JSON must be a list of objects.", 400%nat), tbl)
        | JsonArray data => import_items e data tbl
        end
  end.

End ImportJSONResource.

Module ImportCSVResource.

(** What [file.stream.read().decode('utf-8')] makes of the upload: it
    raises [UnicodeDecodeError], whose text is [msg], or returns the
    text. *)
Inductive decoded : Type :=
| UnicodeDecodeError (msg : string)
| Text (text : string).

Record upload : Type := mkUpload {
  filename : string;
  stream : decoded
}.

(** [{k: (v if v != "" else None) for k, v in row.items()}], then the three
    [pop]s. *)
Definition row_data (row : pydict) : pydict :=
  delete (Some "updated_at")
    (delete (Some "created_at")
       (delete (Some "id")
          ((fun v => if bool_decide (v = PStr "") then PNone else v) <$> row))).

Definition post (e : Env) (file : option upload) (tbl : Company.table)
  : response * Company.table :=
  match file with
  | None => ((Message "No file part in the request.", 400%nat), tbl)
  | Some file =>
      if bool_decide (filename file = "")
      then ((Message "No selected file.", 400%nat), tbl)
      else
        match stream file with
        | UnicodeDecodeError msg =>
            ((Message ("Invalid CSV file: " +:+ msg), 400%nat), tbl)
        | Text text =>
            let '(reader, csv_error) := csv.DictReader (splitlines text) in
            match import_loop e 0 (Obj ∘ row_data <$> reader)
                    (mkProgress 0 [] tbl) with
            | inr p =>
                match csv_error with
                | Some msg =>
                    ((Message ("Invalid CSV file: " +:+ msg), 400%nat), rows p)
                | None => (import_report p, rows p)
                end
            | inl (IntegrityError msg, tbl') | inl (SQLAlchemyError msg, tbl') =>
                ((Message ("Database error: " +:+ msg), 400%nat), tbl')
            | inl (OverflowError msg, tbl') => ((Uncaught msg, 500%nat), tbl')
            end
        end
  end.

End ImportCSVResource.

(** * Specification vocabulary

    Predicates and tables the statements below are written with, and
    the sample data their instances use. *)

Local Open Scope list_scope.

Definition name_field : CompanySchema.field :=
  CompanySchema.mkField "name" (CompanySchema.ColString 100) true false
    (CompanySchema.on_str CompanySchema.validate_name).

Ltac nodup_keys :=
  apply (bool_decide_unpack _); vm_compute; reflexivity.

Ltac not_a_key :=
  cbn [fmap list_fmap fst full_arguments];
  apply (bool_decide_unpack _); vm_compute; reflexivity.

(** ** Attributes and columns *)

(** The attributes a client can set, each with its column. *)
Definition settable_fields : list (string * (Company.t -> pyval)) := [
  ("name", Company.name);
  ("description", Company.description);
  ("logo_url", Company.logo_url);
  ("parent_id", Company.parent_id);
  ("organization_id", Company.organization_id);
  ("address", Company.address);
  ("email", Company.email);
  ("phone_number", Company.phone_number);
  ("website", Company.website);
  ("is_active", Company.is_active);
  ("registration_number", Company.registration_number);
  ("tax_id", Company.tax_id);
  ("country", Company.country);
  ("city", Company.city);
  ("postal_code", Company.postal_code);
  ("employees_count", Company.employees_count)
].

Ltac each_member H :=
  repeat (apply elem_of_cons in H as [H|H]); [..|by apply elem_of_nil in H].

(** What the column of the attribute [k] makes of a value. *)
Definition column_bind (e : Env) (k : string) (v : pyval) : failure + pyval :=
  if bool_decide (k = "is_active") then Company.bind_boolean v
  else if bool_decide (k = "employees_count") then Company.bind_integer e v
  else Company.bind_string v.

(** A string or [None]. *)
Definition is_text (v : pyval) : bool :=
  match v with PNone | PStr _ => true | _ => false end.

Ltac unfold_bind :=
  unfold mbind, failure_bind, mret, failure_ret.

Ltac settable_member :=
  unfold settable_fields;
  repeat first [apply list_elem_of_here | apply list_elem_of_further].

Ltac text_key :=
  repeat first [apply list_elem_of_here | apply list_elem_of_further].

(** ** Values a column keeps *)

(** A value of the type of the column of [k]: a boolean for [is_active],
    an integer of 64 bits for [employees_count], a string elsewhere. *)
Definition column_keeps (k : string) (v : pyval) : bool :=
  if bool_decide (k = "is_active")
  then match v with PBool _ => true | _ => false end
  else if bool_decide (k = "employees_count")
  then match v with PInt z => Company.int64 z | _ => false end
  else match v with PStr _ => true | _ => false end.

Inductive request : Type :=
| GET_companies
| POST_companies (json_data : payload)
| GET_company (company_id : string)
| PUT_company (company_id : string) (json_data : payload)
| PATCH_company (company_id : string) (json_data : payload)
| DELETE_company (company_id : string)
| GET_export_csv
| POST_import_json (file : option ImportJSONResource.upload)
| POST_import_csv (file : option ImportCSVResource.upload).

(** The resource method each request is routed to. *)
Definition handle (e : Env) (r : request) (tbl : Company.table)
  : response * Company.table :=
  match r with
  | GET_companies => CompanyListResource.get tbl
  | POST_companies json_data => CompanyListResource.post e json_data tbl
  | GET_company company_id => CompanyResource.get company_id tbl
  | PUT_company company_id json_data =>
      CompanyResource.put e company_id json_data tbl
  | PATCH_company company_id json_data =>
      CompanyResource.patch e company_id json_data tbl
  | DELETE_company company_id => CompanyResource.delete company_id tbl
  | GET_export_csv => ExportCSVResource.get tbl
  | POST_import_json file => ImportJSONResource.post e file tbl
  | POST_import_csv file => ImportCSVResource.post e file tbl
  end.

(** The tables the service can be in: it starts empty and changes only
    through requests. *)
Inductive reachable : Company.table -> Prop :=
| reachable_empty : reachable []
| reachable_step e r tbl :
    reachable tbl -> reachable (snd (handle e r tbl)).

Definition unique_names (tbl : Company.table) : Prop :=
  NoDup (Company.name <$> tbl).

(** ** Values of the type of their column *)

(** A value has the type of the column of [k]: null or a boolean for
    [is_active], null or an integer for [employees_count], null or a string
    elsewhere. *)
Definition well_typed (k : string) (v : pyval) : bool :=
  if bool_decide (k = "is_active")
  then match v with PNone | PBool _ => true | _ => false end
  else if bool_decide (k = "employees_count")
  then match v with PNone | PInt _ => true | _ => false end
  else is_text v.

(** An integer fits the [Integer] column. *)
Definition fits (v : pyval) : bool :=
  match v with PInt z => Company.int64 z | _ => true end.

(** ** Imports *)



(** The identifiers the oracle hands out from index [from] on, [n] of them,
    are new to the table and pairwise distinct. *)
Definition fresh_ids (e : Env) (from n : nat) (tbl : Company.table) : Prop :=
  (forall k, (from <= k < from + n)%nat -> uuid4 e k ∉ Company.id <$> tbl) /\
  (forall j k, (from <= j < k)%nat -> (k < from + n)%nat ->
     uuid4 e j <> uuid4 e k).

Ltac import_key :=
  cbn [import_arguments fmap list_fmap fst];
  repeat first [apply list_elem_of_here | apply list_elem_of_further].



(** ** The rules of the fields *)








(** ** Field lengths *)




(** The characters of a line, without the end of the line. *)
Fixpoint feed (r : csv.reader) (chars : list ascii) : option csv.reader :=
  match chars with
  | [] => Some r
  | c :: chars' =>
      match csv.parse_process_char r (Some c) with
      | Some r' => feed r' chars'
      | None => None
      end
  end.

(** The states in which a field is complete, waiting for the delimiter or
    the end of the line. *)
Definition field_read (s : list ascii) (fs : list string) (r : csv.reader)
  : Prop :=
  csv.fields r = fs /\ csv.field r = rev s /\
  (csv.state r = csv.IN_FIELD \/ csv.state r = csv.QUOTE_IN_QUOTED_FIELD \/
   (csv.state r = csv.START_FIELD /\ s = [])).

Definition no_line_boundary (l : list ascii) : Prop :=
  Forall (fun c => is_line_boundary c = false) l.

(** A cell without line boundary. *)
Definition plain (s : string) : bool :=
  forallb (fun c => negb (is_line_boundary c)) (list_ascii_of_string s).

(** The line [writerow] ends with the line terminator. *)
Definition row_line (cells : list string) : list ascii :=
  csv.join_fields (csv.write_field ∘ list_ascii_of_string <$> cells).

(** ** Export and import *)

Definition all_digits (l : list ascii) : Prop :=
  Forall (fun c => is_digit c = true) l.

(** What the importer makes of a cell: [v if v != "" else None]. *)
Definition cell_value (s : string) : pyval :=
  if bool_decide (PStr s = PStr "") then PNone else PStr s.

(** A value whose cell can be read back: a string is not empty and has no
    line boundary. *)
Definition printable (v : pyval) : bool :=
  match v with
  | PStr s => negb (bool_decide (s = "")) && plain s
  | _ => true
  end.

(** The schema, on an empty table, accepts the value for the field and
    returns it as it is. *)
Definition accepts (f : CompanySchema.field) (v : pyval) : bool :=
  bool_decide
    (CompanySchema.load_field [] false f
       {[ Some (CompanySchema.field_name f) := v ]}
     = CompanySchema.Value v).

(** The loadable fields, each with the attribute that stores it. *)
Definition columns : list (CompanySchema.field * (Company.t -> pyval)) :=
  zip CompanySchema.load_fields settable_fields.*2.

(** A record the round trip applies to. *)
Definition exportable (c : Company.t) : bool :=
  plain (Company.id c)
  && forallb (fun '(f, proj) => accepts f (proj c) && printable (proj c))
       columns
  && fits (Company.employees_count c).

(** What importing the exported row of [c] creates, as the [k]-th row of
    the request. *)
Definition reimport (e : Env) (k : nat) (c : Company.t) : Company.t := {|
  Company.id := uuid4 e k;
  Company.name := Company.name c;
  Company.description := Company.description c;
  Company.logo_url := Company.logo_url c;
  Company.parent_id := PNone;
  Company.organization_id := PNone;
  Company.address := Company.address c;
  Company.email := Company.email c;
  Company.phone_number := Company.phone_number c;
  Company.website := Company.website c;
  Company.created_at := Some (now e k);
  Company.updated_at := Some (now e k);
  Company.is_active := PBool true;
  Company.registration_number := Company.registration_number c;
  Company.tax_id := Company.tax_id c;
  Company.country := Company.country c;
  Company.city := Company.city c;
  Company.postal_code := Company.postal_code c;
  Company.employees_count := Company.employees_count c
|}.

Fixpoint reimport_from (e : Env) (k : nat) (tbl : Company.table)
  : Company.table :=
  match tbl with
  | [] => []
  | c :: tbl' => reimport e k c :: reimport_from e (S k) tbl'
  end.

(** The file the export hands out, uploaded as it is. *)
Definition exported_file (filename : string) (tbl : Company.table)
  : option ImportCSVResource.upload :=
  Some (ImportCSVResource.mkUpload filename
          (ImportCSVResource.Text
             (ExportCSVResource.getvalue (Company.get_all tbl)))).

Ltac read_back_field Hacc :=
  cbn -[Nat.ltb String.length Z.ltb py_int_of_string py_str_of_int
        bool_decide] in Hacc |- *;
  first
    [ exact Hacc
    | discriminate Hacc
    | reflexivity
    | match goal with
      | |- context [(?n <? String.length ?s)%nat] =>
          destruct (n <? String.length s)%nat;
          cbn -[Nat.ltb String.length] in Hacc |- *;
          first [exact Hacc | discriminate Hacc]
      end ].

Ltac column_member :=
  unfold columns, CompanySchema.load_fields, settable_fields;
  cbn [zip_with fmap list_fmap snd];
  repeat first [apply list_elem_of_here | apply list_elem_of_further].

(** *** The rows of an exported file *)

(** The payloads the importer validates when it is given the export of
    [tbl]. *)
Definition exported_items (tbl : Company.table) : list payload :=
  (fun c => Obj (ImportCSVResource.row_data
                   (csv.dict_of_row ExportCSVResource.header
                      (ExportCSVResource.data_row c)))) <$> tbl.

(** Two records agree on what an import carries over. *)
Definition carried_over (c c' : Company.t) : Prop :=
  forall k proj, (k, proj) ∈ settable_fields ->
    k <> "organization_id" -> k <> "is_active" -> proj c' = proj c.

(** ** Sample data *)

(** The text of a failure, as SQLite and SQLAlchemy word it. *)
Definition sample_str_error (f : failure) : string :=
  match f with
  | NotNull column => "NOT NULL constraint failed: companies." +:+ column
  | DuplicateKey _ => "UNIQUE constraint failed: companies.id"
  | NotABoolean _ => "Not a boolean value"
  | Unsupported _ => "type is not supported"
  | TooLarge _ => "Python int too large to convert to SQLite INTEGER"
  end.

(** An environment whose [k]-th identifier is [k + 1] letters long. *)
Definition sample_env : Env :=
  mkEnv (fun k => string_of_list_ascii (repeat "u"%char (S k)))
        (fun _ => mkDatetime 2024 1 2 3 4 5 0)
        sample_str_error
        PStr.

(** The environment of a later request: other identifiers, a later time. *)
Definition later_env : Env :=
  mkEnv (fun k => string_of_list_ascii (repeat "v"%char (S k)))
        (fun _ => mkDatetime 2024 1 2 3 4 6 0)
        sample_str_error
        PStr.

Definition sample_stamp : datetime := mkDatetime 2023 12 31 23 59 58 0.

Definition acme : Company.t := {|
  Company.id := "c1";
  Company.name := PStr "Acme";
  Company.description := PStr "old";
  Company.logo_url := PNone;
  Company.parent_id := PNone;
  Company.organization_id := PNone;
  Company.address := PNone;
  Company.email := PNone;
  Company.phone_number := PNone;
  Company.website := PNone;
  Company.created_at := Some sample_stamp;
  Company.updated_at := Some sample_stamp;
  Company.is_active := PBool true;
  Company.registration_number := PNone;
  Company.tax_id := PNone;
  Company.country := PNone;
  Company.city := PNone;
  Company.postal_code := PNone;
  Company.employees_count := PInt 7
|}.

(** The payload [{"name": s}]. *)
Definition name_only (s : string) : pydict := {[ Some "name" := PStr s ]}.

(** The table after two successful creations. *)
Definition two_companies : Company.table :=
  snd (handle later_env (POST_companies (Obj (name_only "Borealis")))
         (snd (handle sample_env (POST_companies (Obj (name_only "Acme")))
                 []))).




(** A valid payload that tries to set the three fields [post] leaves out. *)
Definition subsidiary_payload : pydict :=
  {[ Some "name" := PStr "Beta";
     Some "parent_id" := PStr "c1";
     Some "organization_id" := PStr "org-1";
     Some "is_active" := PBool false ]}.

(** 2 ^ 63, the first integer the [Integer] column cannot hold. *)
Definition too_many : Z := 9223372036854775808.

(** A valid payload whose employees count does not fit the column. *)
Definition crowded_payload : pydict :=
  {[ Some "name" := PStr "Big"; Some "employees_count" := PInt too_many ]}.

(** A sparse payload: a new string, a null, a number as a string and a
    boolean as a number. *)
Definition sparse_payload : pydict :=
  {[ Some "address" := PStr "1 Main St";
     Some "description" := PNone;
     Some "employees_count" := PStr "12";
     Some "is_active" := PInt 0 ]}.

(** The payload [{"employees_count": "12"}]. *)
Definition count_as_text : pydict :=
  {[ Some "employees_count" := PStr "12" ]}.





(** ** Sample tables to export *)

(** A second company, with a few more attributes. *)
Definition borealis : Company.t := {|
  Company.id := "c2";
  Company.name := PStr "Borealis";
  Company.description := PNone;
  Company.logo_url := PStr "https://borealis.example/logo.png";
  Company.parent_id := PNone;
  Company.organization_id := PNone;
  Company.address := PStr "12, Quay Street";
  Company.email := PStr "info@borealis.example";
  Company.phone_number := PNone;
  Company.website := PStr "https://borealis.example";
  Company.created_at := Some sample_stamp;
  Company.updated_at := None;
  Company.is_active := PBool true;
  Company.registration_number := PNone;
  Company.tax_id := PNone;
  Company.country := PStr "Norway";
  Company.city := PNone;
  Company.postal_code := PNone;
  Company.employees_count := PNone
|}.

(** [acme] with one attribute set after the other. *)
Definition with_organization (c : Company.t) : Company.t :=
  Company.update_attrs c
    {[ "organization_id" := PStr "org-1"; "is_active" := PBool false ]}
    sample_stamp.

Definition with_parent (parent : string) (c : Company.t) : Company.t :=
  Company.update_attrs c {[ "parent_id" := PStr parent ]} sample_stamp.

Definition with_description (s : string) (c : Company.t) : Company.t :=
  Company.update_attrs c {[ "description" := PStr s ]} sample_stamp.

(** A description in two lines. *)
Definition two_lines : string :=
  "Tools" +:+ String csv.LF "and dies".

(** * Properties *)

(** ** The table *)

Lemma get_by_name_Some (tbl : Company.table) (c : Company.t) :
  c ∈ tbl -> is_Some (Company.get_by_name (Company.name c) tbl).
Proof.
  unfold Company.get_by_name. induction 1 as [c tbl|c r tbl _ IH]; simpl.
  - rewrite bool_decide_eq_true_2 by done. eauto.
  - destruct (bool_decide _); eauto.
Qed.

Lemma get_by_name_None (tbl : Company.table) (v : pyval) :
  Company.get_by_name v tbl = None <-> v ∉ Company.name <$> tbl.
Proof.
  unfold Company.get_by_name. induction tbl as [|r tbl IH]; simpl.
  - split; [intros _; apply not_elem_of_nil | done].
  - rewrite not_elem_of_cons. case_bool_decide as E.
    + split; [done|]. intros [? _]. congruence.
    + rewrite IH. split; [intros; split; [congruence | done] | tauto].
Qed.

Lemma get_by_id_Some (tbl : Company.table) (cid : string) (c : Company.t) :
  Company.get_by_id cid tbl = Some c -> c ∈ tbl /\ Company.id c = cid.
Proof.
  unfold Company.get_by_id. induction tbl as [|r tbl IH]; simpl; [done|].
  case_bool_decide.
  - intros [= <-]. split; [left | done].
  - intros [? ?]%IH. split; [by right | done].
Qed.

Lemma get_by_id_None (tbl : Company.table) (cid : string) :
  Company.get_by_id cid tbl = None <-> cid ∉ Company.id <$> tbl.
Proof.
  unfold Company.get_by_id. induction tbl as [|r tbl IH]; simpl.
  - split; [intros _; apply not_elem_of_nil | done].
  - rewrite not_elem_of_cons. case_bool_decide as E.
    + split; [done|]. intros [? _]. congruence.
    + rewrite IH. split; [intros; split; [congruence | done] | tauto].
Qed.

(** ** The schema *)

Section Load.
Variables (tbl : Company.table) (partial : bool) (d : pydict).

Lemma errors_lookup_Invalid (fs : list CompanySchema.field) f msgs :
  NoDup (CompanySchema.field_name <$> fs) -> f ∈ fs ->
  CompanySchema.load_field tbl partial f d = CompanySchema.Invalid msgs ->
  foldr (CompanySchema.add_error tbl partial d) ∅ fs !! Some (CompanySchema.field_name f) = Some msgs.
Proof.
  induction fs as [|g fs IH]; [by intros _ ?%elem_of_nil|].
  rewrite fmap_cons, NoDup_cons. intros [Hg Hnd] [->|Hin]%elem_of_cons Hf; simpl.
  - unfold CompanySchema.add_error at 1. rewrite Hf. apply lookup_insert_eq.
  - assert (CompanySchema.field_name g <> CompanySchema.field_name f).
    { intros E. apply Hg. rewrite E. by apply list_elem_of_fmap_2. }
    unfold CompanySchema.add_error at 1. destruct (CompanySchema.load_field tbl partial g d);
      try rewrite lookup_insert_ne by congruence; by apply IH.
Qed.

Lemma errors_lookup_Some (fs : list CompanySchema.field) k msgs :
  foldr (CompanySchema.add_error tbl partial d) ∅ fs !! k = Some msgs ->
  exists f, f ∈ fs /\ k = Some (CompanySchema.field_name f) /\
    CompanySchema.load_field tbl partial f d = CompanySchema.Invalid msgs.
Proof.
  induction fs as [|g fs IH]; simpl; [by rewrite lookup_empty|].
  unfold CompanySchema.add_error at 1.
  destruct (CompanySchema.load_field tbl partial g d) as [|ms|v] eqn:E.
  - intros (f & ? & ? & ?)%IH. exists f. by rewrite elem_of_cons; eauto.
  - destruct (decide (Some (CompanySchema.field_name g) = k)) as [<-|Hne].
    + rewrite lookup_insert_eq. intros [= <-]. exists g. split; [left | done].
    + rewrite lookup_insert_ne by done.
      intros (f & ? & ? & ?)%IH. exists f. by rewrite elem_of_cons; eauto.
  - intros (f & ? & ? & ?)%IH. exists f. by rewrite elem_of_cons; eauto.
Qed.

Lemma values_lookup_Value (fs : list CompanySchema.field) f v :
  NoDup (CompanySchema.field_name <$> fs) -> f ∈ fs ->
  CompanySchema.load_field tbl partial f d = CompanySchema.Value v ->
  foldr (CompanySchema.add_value tbl partial d) ∅ fs !! CompanySchema.field_name f = Some v.
Proof.
  induction fs as [|g fs IH]; [by intros _ ?%elem_of_nil|].
  rewrite fmap_cons, NoDup_cons. intros [Hg Hnd] [->|Hin]%elem_of_cons Hf; simpl.
  - unfold CompanySchema.add_value at 1. rewrite Hf. apply lookup_insert_eq.
  - assert (CompanySchema.field_name g <> CompanySchema.field_name f).
    { intros E. apply Hg. rewrite E. by apply list_elem_of_fmap_2. }
    unfold CompanySchema.add_value at 1. destruct (CompanySchema.load_field tbl partial g d);
      try rewrite lookup_insert_ne by congruence; by apply IH.
Qed.

Lemma values_lookup_Some (fs : list CompanySchema.field) k v :
  foldr (CompanySchema.add_value tbl partial d) ∅ fs !! k = Some v ->
  exists f, f ∈ fs /\ k = CompanySchema.field_name f /\
    CompanySchema.load_field tbl partial f d = CompanySchema.Value v.
Proof.
  induction fs as [|g fs IH]; simpl; [by rewrite lookup_empty|].
  unfold CompanySchema.add_value at 1.
  destruct (CompanySchema.load_field tbl partial g d) as [|ms|w] eqn:E.
  - intros (f & ? & ? & ?)%IH. exists f. by rewrite elem_of_cons; eauto.
  - intros (f & ? & ? & ?)%IH. exists f. by rewrite elem_of_cons; eauto.
  - destruct (decide (CompanySchema.field_name g = k)) as [<-|Hne].
    + rewrite lookup_insert_eq. intros [= <-]. exists g. split; [left | done].
    + rewrite lookup_insert_ne by done.
      intros (f & ? & ? & ?)%IH. exists f. by rewrite elem_of_cons; eauto.
Qed.

End Load.

Lemma load_fields_NoDup :
  NoDup (CompanySchema.field_name <$> CompanySchema.load_fields).
Proof. apply (bool_decide_unpack _). vm_compute. reflexivity. Qed.

Lemma field_errors_Invalid tbl partial d f msgs :
  f ∈ CompanySchema.load_fields ->
  CompanySchema.load_field tbl partial f d = CompanySchema.Invalid msgs ->
  CompanySchema.field_errors tbl partial d
    !! Some (CompanySchema.field_name f) = Some msgs.
Proof.
  intros Hin Hf. unfold CompanySchema.field_errors.
  apply errors_lookup_Invalid; [apply load_fields_NoDup | exact Hin | exact Hf].
Qed.

(** A field that is rejected appears in the errors of [load], with its
    messages. *)
Lemma field_errors_Some tbl partial d k msgs :
  CompanySchema.field_errors tbl partial d !! k = Some msgs ->
  exists f, f ∈ CompanySchema.load_fields /\
    k = Some (CompanySchema.field_name f) /\
    CompanySchema.load_field tbl partial f d = CompanySchema.Invalid msgs.
Proof. unfold CompanySchema.field_errors. apply errors_lookup_Some. Qed.

Lemma load_Invalid tbl partial d f msgs :
  f ∈ CompanySchema.load_fields ->
  CompanySchema.load_field tbl partial f d = CompanySchema.Invalid msgs ->
  exists errs, CompanySchema.load tbl partial (Obj d) = inl errs /\
    errs !! Some (CompanySchema.field_name f) = Some msgs.
Proof.
  intros Hin Hf. unfold CompanySchema.load.
  pose proof (field_errors_Invalid _ _ _ _ _ Hin Hf) as Hl.
  apply (lookup_union_Some_l _ (CompanySchema.unknown_errors d)) in Hl.
  destruct (decide _) as [E|_]; [|eauto].
  rewrite E, lookup_empty in Hl. done.
Qed.

(** When [load] succeeds no field was rejected, no key was unknown, and the
    result holds the value of every field that was supplied. *)
Lemma load_inr tbl partial p data :
  CompanySchema.load tbl partial p = inr data ->
  exists d, p = Obj d /\
    data = CompanySchema.loaded_data tbl partial d /\
    (forall f msgs, f ∈ CompanySchema.load_fields ->
       CompanySchema.load_field tbl partial f d <> CompanySchema.Invalid msgs) /\
    (forall k v, d !! k = Some v ->
       k ∈ (Some ∘ CompanySchema.field_name) <$> CompanySchema.load_fields).
Proof.
  destruct p as [d|v]; unfold CompanySchema.load; [|done].
  destruct (decide _) as [E|]; [|done]. intros [= <-].
  exists d. split; [done|]. split; [done|].
  pose proof (map_positive_l _ _ E) as E1.
  rewrite E1, (left_id_L ∅ (∪)) in E.
  split.
  - intros f msgs Hin Hf.
    pose proof (field_errors_Invalid _ _ _ _ _ Hin Hf) as Hl.
    rewrite E1, lookup_empty in Hl. done.
  - intros k v Hk. unfold CompanySchema.unknown_errors in E.
    apply fmap_empty_iff, map_empty_filter in E.
    specialize (E k v Hk). simpl in E. by apply dec_stable in E.
Qed.

Lemma loaded_data_Value tbl partial d f v :
  f ∈ CompanySchema.load_fields ->
  CompanySchema.load_field tbl partial f d = CompanySchema.Value v ->
  CompanySchema.loaded_data tbl partial d !! CompanySchema.field_name f = Some v.
Proof.
  intros Hin Hf. unfold CompanySchema.loaded_data.
  apply values_lookup_Value; [apply load_fields_NoDup | exact Hin | exact Hf].
Qed.

Lemma loaded_data_Some tbl partial d k v :
  CompanySchema.loaded_data tbl partial d !! k = Some v ->
  exists f, f ∈ CompanySchema.load_fields /\ k = CompanySchema.field_name f /\
    CompanySchema.load_field tbl partial f d = CompanySchema.Value v.
Proof. unfold CompanySchema.loaded_data. apply values_lookup_Some. Qed.

Lemma name_field_in : name_field ∈ CompanySchema.load_fields.
Proof. left. Qed.

(** The name validator has no exemption: a name some row carries is
    rejected, whatever row that is. *)
Lemma name_taken_Invalid tbl partial d v :
  d !! Some "name" = Some v -> v ∈ Company.name <$> tbl ->
  exists msgs, CompanySchema.load_field tbl partial name_field d
               = CompanySchema.Invalid msgs.
Proof.
  intros Hd Hin. unfold CompanySchema.load_field.
  change (CompanySchema.field_name name_field) with "name". rewrite Hd.
  unfold CompanySchema.deserialize.
  change (CompanySchema.allow_none name_field) with false.
  change (CompanySchema.field_type name_field)
    with (CompanySchema.ColString 100).
  change (CompanySchema.validator name_field)
    with (CompanySchema.on_str CompanySchema.validate_name).
  unfold CompanySchema.on_str, CompanySchema.deserialize_value.
  destruct v as [|b|z|s|]; try (eexists; reflexivity).
  destruct (100 <? String.length s)%nat; [eexists; reflexivity|].
  unfold CompanySchema.validate_name, as_str.
  destruct s as [|a s]; [eexists; reflexivity|].
  unfold truthy, negb, of_str.
  destruct (Company.get_by_name _ tbl) eqn:E.
  - rewrite bool_decide_eq_true_2 by eauto. eexists; reflexivity.
  - by apply get_by_name_None in E.
Qed.

Lemma load_name_taken tbl partial d v :
  d !! Some "name" = Some v -> v ∈ Company.name <$> tbl ->
  exists errs, CompanySchema.load tbl partial (Obj d) = inl errs /\
    is_Some (errs !! Some "name").
Proof.
  intros Hd Hin.
  destruct (name_taken_Invalid tbl partial d v Hd Hin) as [msgs Hf].
  destruct (load_Invalid _ _ _ _ _ name_field_in Hf) as (errs & ? & ?).
  exists errs. eauto.
Qed.

(** C2.  Whatever the table and the environment, a POST whose payload
    carries under [name] the name of a row of the table (the very same
    value: the comparison is exact) is answered with status 400 and the
    validation errors, which have an entry for the key [name]; the table
    is left as it was. *)
Theorem post_existing_name_rejected (e : Env) (d : pydict)
    (tbl : Company.table) (v : pyval) (c : Company.t) :
  d !! Some "name" = Some v -> c ∈ tbl -> Company.name c = v ->
  exists errs,
    CompanyListResource.post e (Obj d) tbl
    = ((ValidationErrors errs, 400%nat), tbl) /\
    is_Some (errs !! Some "name").
Proof.
  intros Hd Hc Hv.
  destruct (load_name_taken tbl false d v Hd) as (errs & Hl & Hk).
  { subst v. by apply list_elem_of_fmap_2. }
  exists errs. unfold CompanyListResource.post. by rewrite Hl.
Qed.

(** C10.  The name validator exempts no row: a PUT or a PATCH, on whatever
    identifier, whose payload gives a name some row of the table carries
    (the row being updated included) is answered with status 400 and an
    error under [name], and the table is left as it was.  In particular a
    full update that keeps the name of the company always fails. *)
Theorem update_existing_name_rejected (e : Env) (company_id : string)
    (d : pydict) (tbl : Company.table) (v : pyval) (c : Company.t) :
  d !! Some "name" = Some v -> c ∈ tbl -> Company.name c = v ->
  (exists errs,
     CompanyResource.put e company_id (Obj d) tbl
     = ((ValidationErrors errs, 400%nat), tbl) /\
     is_Some (errs !! Some "name")) /\
  (exists errs,
     CompanyResource.patch e company_id (Obj d) tbl
     = ((ValidationErrors errs, 400%nat), tbl) /\
     is_Some (errs !! Some "name")).
Proof.
  intros Hd Hc Hv.
  assert (v ∈ Company.name <$> tbl) as Hin.
  { subst v. by apply list_elem_of_fmap_2. }
  split.
  - destruct (load_name_taken tbl false d v Hd Hin) as (errs & Hl & Hk).
    exists errs. unfold CompanyResource.put. by rewrite Hl.
  - destruct (load_name_taken tbl true d v Hd Hin) as (errs & Hl & Hk).
    exists errs. unfold CompanyResource.patch. by rewrite Hl.
Qed.

(** What a successful [load] says about the name. *)
Lemma load_inr_name tbl partial d data :
  CompanySchema.load tbl partial (Obj d) = inr data ->
  match d !! Some "name" with
  | None => partial = true
  | Some v => exists s, v = PStr s /\ s <> "" /\
      Company.get_by_name (PStr s) tbl = None /\
      (String.length s <= 100)%nat
  end.
Proof.
  intros (d' & [= <-] & _ & Hf & _)%load_inr.
  specialize (Hf name_field). 
  assert (forall msgs, CompanySchema.load_field tbl partial name_field d
                       <> CompanySchema.Invalid msgs) as Hn.
  { intros msgs. apply Hf, name_field_in. }
  clear Hf. revert Hn. unfold CompanySchema.load_field.
  change (CompanySchema.field_name name_field) with "name".
  unfold CompanySchema.deserialize.
  change (CompanySchema.allow_none name_field) with false.
  change (CompanySchema.required name_field) with true.
  change (CompanySchema.field_type name_field)
    with (CompanySchema.ColString 100).
  change (CompanySchema.validator name_field)
    with (CompanySchema.on_str CompanySchema.validate_name).
  unfold CompanySchema.on_str, CompanySchema.deserialize_value.
  destruct (d !! Some "name") as [v|]; intros Hn.
  - destruct v as [|b|z|s|]; try (by edestruct Hn).
    destruct (100 <? String.length s)%nat eqn:El; [by edestruct Hn|].
    apply Nat.ltb_ge in El.
    revert Hn. unfold CompanySchema.validate_name, as_str, of_str.
    destruct s as [|a s]; [intros Hn; by edestruct Hn|].
    unfold truthy, negb. intros Hn.
    destruct (Company.get_by_name _ tbl) eqn:E.
    + rewrite bool_decide_eq_true_2 in Hn by eauto. by edestruct Hn.
    + exists (String a s). done.
  - destruct partial; [done|]. by edestruct Hn.
Qed.

Lemma full_kwargs_Some d k v :
  (k, v) ∈ full_arguments d -> full_kwargs d !! k = Some v.
Proof.
  intros Hin. unfold full_kwargs. apply elem_of_list_to_map; [|exact Hin].
  cbn [fmap list_fmap fst]. nodup_keys.
Qed.

Lemma full_kwargs_None d k :
  k ∉ (full_arguments d).*1 -> full_kwargs d !! k = None.
Proof. intros Hin. unfold full_kwargs. by apply not_elem_of_list_to_map_1. Qed.

Lemma new_parent_id e k name kw :
  Company.parent_id (Company.new e k name kw) = kwarg "parent_id" PNone kw.
Proof. reflexivity. Qed.

Lemma new_organization_id e k name kw :
  Company.organization_id (Company.new e k name kw) = PNone.
Proof. reflexivity. Qed.

Lemma new_is_active e k name kw :
  Company.is_active (Company.new e k name kw)
  = kwarg "is_active" (PBool true) kw.
Proof. reflexivity. Qed.

Lemma new_employees_count e k name kw :
  Company.employees_count (Company.new e k name kw)
  = kwarg "employees_count" PNone kw.
Proof. reflexivity. Qed.

Lemma new_name e k name kw : Company.name (Company.new e k name kw) = name.
Proof. reflexivity. Qed.

Lemma new_id e k name kw : Company.id (Company.new e k name kw) = uuid4 e k.
Proof. reflexivity. Qed.

Lemma full_kwargs_parent_id d : full_kwargs d !! "parent_id" = None.
Proof. apply full_kwargs_None. not_a_key. Qed.

Lemma full_kwargs_is_active d : full_kwargs d !! "is_active" = None.
Proof. apply full_kwargs_None. not_a_key. Qed.

Lemma full_kwargs_employees_count d :
  full_kwargs d !! "employees_count"
  = Some (dict_get_or "employees_count" (PInt 0) d).
Proof.
  apply full_kwargs_Some. unfold full_arguments.
  do 11 apply list_elem_of_further. apply list_elem_of_here.
Qed.

(** ** The stored row *)

Lemma settable_employees_count (proj : Company.t -> pyval) :
  ("employees_count", proj) ∈ settable_fields ->
  proj = Company.employees_count.
Proof.
  intros Hin. unfold settable_fields in Hin.
  each_member Hin; first [discriminate Hin | by injection Hin as <-].
Qed.

Lemma bind_string_text (v : pyval) :
  is_text v = true -> Company.bind_string v = inr v.
Proof. by destruct v. Qed.

Lemma column_bind_text (e : Env) (k : string) (v : pyval) :
  k <> "is_active" -> k <> "employees_count" -> is_text v = true ->
  column_bind e k v = inr v.
Proof.
  intros H1 H2 Hv. unfold column_bind.
  rewrite !bool_decide_eq_false_2 by done. by apply bind_string_text.
Qed.

Lemma column_bind_is_active (e : Env) (v : pyval) :
  column_bind e "is_active" v = Company.bind_boolean v.
Proof. reflexivity. Qed.

Lemma column_bind_employees_count (e : Env) (v : pyval) :
  column_bind e "employees_count" v = Company.bind_integer e v.
Proof. reflexivity. Qed.

(** The row a successful commit stores: each attribute is what its column
    makes of the value of the instance. *)
Lemma stored_inr (e : Env) (c row : Company.t) :
  Company.stored e c = inr row ->
  Company.id row = Company.id c /\
  Company.created_at row = Company.created_at c /\
  Company.updated_at row = Company.updated_at c /\
  forall k proj, (k, proj) ∈ settable_fields ->
    column_bind e k (proj c) = inr (proj row).
Proof.
  unfold Company.stored. unfold_bind.
  repeat match goal with
         | |- context [match ?x with inl _ => _ | inr _ => _ end] =>
             destruct x eqn:?; [discriminate|]
         end.
  intros [= <-]. cbn [Company.id Company.created_at Company.updated_at].
  do 3 (split; [done|]). intros k proj Hin. unfold settable_fields in Hin.
  each_member Hin; injection Hin as -> ->; unfold column_bind; cbn; done.
Qed.

(** The commit succeeds as soon as every column takes its value. *)
Lemma stored_is_inr (e : Env) (c : Company.t) :
  (forall k proj, (k, proj) ∈ settable_fields ->
     exists v, column_bind e k (proj c) = inr v) ->
  exists row, Company.stored e c = inr row.
Proof.
  intros Hall.
  assert (forall k proj, (k, proj) ∈ settable_fields ->
            k <> "is_active" -> k <> "employees_count" ->
            exists v, Company.bind_string (proj c) = inr v) as Hs.
  { intros k proj Hin H1 H2. destruct (Hall k proj Hin) as [v Hv].
    unfold column_bind in Hv. rewrite !bool_decide_eq_false_2 in Hv by done.
    eauto. }
  destruct (Hall "is_active" Company.is_active ltac:(settable_member))
    as [a Ha].
  destruct (Hall "employees_count" Company.employees_count
              ltac:(settable_member)) as [n Hn].
  rewrite column_bind_is_active in Ha.
  rewrite column_bind_employees_count in Hn.
  unfold Company.stored. unfold_bind. rewrite Ha.
  destruct (Hs "name" Company.name ltac:(settable_member)) as [? ->]; [done..|].
  destruct (Hs "description" Company.description ltac:(settable_member))
    as [? ->]; [done..|].
  destruct (Hs "logo_url" Company.logo_url ltac:(settable_member))
    as [? ->]; [done..|].
  destruct (Hs "parent_id" Company.parent_id ltac:(settable_member))
    as [? ->]; [done..|].
  destruct (Hs "organization_id" Company.organization_id
              ltac:(settable_member)) as [? ->]; [done..|].
  destruct (Hs "address" Company.address ltac:(settable_member))
    as [? ->]; [done..|].
  destruct (Hs "email" Company.email ltac:(settable_member))
    as [? ->]; [done..|].
  destruct (Hs "phone_number" Company.phone_number ltac:(settable_member))
    as [? ->]; [done..|].
  destruct (Hs "website" Company.website ltac:(settable_member))
    as [? ->]; [done..|].
  destruct (Hs "registration_number" Company.registration_number
              ltac:(settable_member)) as [? ->]; [done..|].
  destruct (Hs "tax_id" Company.tax_id ltac:(settable_member))
    as [? ->]; [done..|].
  destruct (Hs "country" Company.country ltac:(settable_member))
    as [? ->]; [done..|].
  destruct (Hs "city" Company.city ltac:(settable_member))
    as [? ->]; [done..|].
  destruct (Hs "postal_code" Company.postal_code ltac:(settable_member))
    as [? ->]; [done..|].
  rewrite Hn. eauto.
Qed.

(** A failed commit is the failure of a column. *)
Lemma stored_inl (e : Env) (c : Company.t) (f : failure) :
  Company.stored e c = inl f ->
  exists k proj, (k, proj) ∈ settable_fields /\
    column_bind e k (proj c) = inl f.
Proof.
  unfold Company.stored. unfold_bind.
  repeat match goal with
         | |- context [match ?b (?p c) with inl _ => _ | inr _ => _ end] =>
             let H := fresh "H" in
             destruct (b (p c)) eqn:H;
             [ intros [= <-]; eexists _, p;
               split; [settable_member | exact H]
             | ]
         end.
  discriminate.
Qed.

(** ** The name of a row *)

Lemma name_field_Value (tbl : Company.table) (partial : bool) (d : pydict)
    (s : string) :
  d !! Some "name" = Some (PStr s) -> s <> "" ->
  Company.get_by_name (PStr s) tbl = None -> (String.length s <= 100)%nat ->
  CompanySchema.load_field tbl partial name_field d
  = CompanySchema.Value (PStr s).
Proof.
  intros Hd Hs Hnew Hlen. unfold CompanySchema.load_field.
  change (CompanySchema.field_name name_field) with "name". rewrite Hd.
  unfold CompanySchema.deserialize.
  change (CompanySchema.field_type name_field)
    with (CompanySchema.ColString 100).
  change (CompanySchema.validator name_field)
    with (CompanySchema.on_str CompanySchema.validate_name).
  unfold CompanySchema.on_str, CompanySchema.deserialize_value.
  rewrite (proj2 (Nat.ltb_ge _ _) Hlen).
  unfold CompanySchema.validate_name, as_str, of_str, len.
  rewrite Hnew, (proj2 (Nat.ltb_ge _ _) Hlen).
  rewrite bool_decide_eq_false_2 by (by intros [? ?]).
  by destruct s.
Qed.

(** The name a successful [load] returns is the one supplied. *)
Lemma load_inr_attr_name (tbl : Company.table) (d : pydict) (data : kwargs) :
  CompanySchema.load tbl false (Obj d) = inr data ->
  exists s, d !! Some "name" = Some (PStr s) /\
    CompanySchema.attr "name" data = PStr s /\
    PStr s ∉ Company.name <$> tbl.
Proof.
  intros Hload. pose proof (load_inr_name _ _ _ _ Hload) as Hname.
  destruct (d !! Some "name") as [v|] eqn:Ed; [|done].
  destruct Hname as (s & -> & Hs & Hnew & Hlen).
  exists s. split; [done|]. split; [|by apply get_by_name_None].
  destruct (load_inr _ _ _ _ Hload) as (d' & [= <-] & -> & _).
  unfold CompanySchema.attr, kwarg.
  pose proof (loaded_data_Value tbl false d name_field (PStr s)
                name_field_in (name_field_Value _ _ _ _ Ed Hs Hnew Hlen)) as Hv.
  change (CompanySchema.field_name name_field) with "name" in Hv.
  by rewrite Hv.
Qed.

(** A string column keeps a string. *)
Lemma stored_name (e : Env) (c row : Company.t) (s : string) :
  Company.stored e c = inr row -> Company.name c = PStr s ->
  Company.name row = PStr s.
Proof.
  intros (_ & _ & _ & Hcols)%stored_inr Hn.
  specialize (Hcols "name" Company.name ltac:(settable_member)).
  rewrite Hn in Hcols. by injection Hcols as <-.
Qed.

(** What a successful [create] has done. *)
Lemma create_inr_inv e k name kw tbl c tbl' :
  Company.create e k name kw tbl = inr (c, tbl') ->
  Company.stored e (Company.with_default_is_active (Company.new e k name kw))
  = inr c /\
  Company.id c = uuid4 e k /\
  Company.get_by_id (uuid4 e k) tbl = None /\
  tbl' = tbl ++ [c].
Proof.
  unfold Company.create, Company.insert_row.
  destruct (Company.stored _ _) as [f|row] eqn:Es; [done|].
  destruct (negb _); [done|].
  destruct (stored_inr _ _ _ Es) as (Hid & _).
  cbn [Company.with_default_is_active Company.id] in Hid.
  rewrite new_id in Hid. rewrite Hid.
  case_bool_decide as Hg; [done|]. intros [= <- <-].
  split; [done|]. split; [done|]. split; [|done].
  destruct (Company.get_by_id _ _); [|done]. destruct Hg. eauto.
Qed.

Lemma create_inr_name e k s kw tbl c tbl' :
  Company.create e k (PStr s) kw tbl = inr (c, tbl') ->
  Company.name c = PStr s.
Proof.
  intros (Hs & _)%create_inr_inv. by eapply stored_name.
Qed.

(** A [create] that finds the identifier free and the values storable. *)
Lemma create_inr e k s kw tbl row :
  Company.stored e (Company.with_default_is_active
                      (Company.new e k (PStr s) kw)) = inr row ->
  Company.get_by_id (uuid4 e k) tbl = None ->
  Company.create e k (PStr s) kw tbl = inr (row, tbl ++ [row]).
Proof.
  intros Hs Hfresh. unfold Company.create, Company.insert_row. rewrite Hs.
  rewrite (stored_name _ _ _ s Hs) by done.
  destruct (stored_inr _ _ _ Hs) as (Hid & _).
  cbn [Company.with_default_is_active Company.id] in Hid.
  rewrite new_id in Hid. rewrite Hid, Hfresh. cbn [is_not_none negb].
  by rewrite bool_decide_eq_false_2 by (by intros [? ?]).
Qed.

(** ** What a payload that loads holds *)

Lemma deserialize_value_not_Missing ty raw :
  CompanySchema.deserialize_value ty raw <> CompanySchema.Missing.
Proof.
  destruct ty, raw; cbn; try done; repeat case_match; done.
Qed.

(** A supplied value that is not rejected is null or deserialises. *)
Lemma load_field_supplied tbl partial f d raw :
  (forall msgs, CompanySchema.load_field tbl partial f d
                <> CompanySchema.Invalid msgs) ->
  d !! Some (CompanySchema.field_name f) = Some raw ->
  raw = PNone \/
  exists v, CompanySchema.deserialize_value (CompanySchema.field_type f) raw
            = CompanySchema.Value v.
Proof.
  intros Hok Hd. unfold CompanySchema.load_field in Hok. rewrite Hd in Hok.
  unfold CompanySchema.deserialize in Hok.
  destruct raw as [|b|z|s|]; [by left|right..];
    match goal with
    | |- exists v, CompanySchema.deserialize_value ?ty ?raw = _ =>
        destruct (CompanySchema.deserialize_value ty raw) as [|msgs|v] eqn:E;
        [ by apply deserialize_value_not_Missing in E
        | by destruct (Hok msgs)
        | by exists v ]
    end.
Qed.

Lemma load_inr_field tbl partial d data k raw :
  CompanySchema.load tbl partial (Obj d) = inr data ->
  d !! Some k = Some raw ->
  exists f, f ∈ CompanySchema.load_fields /\ CompanySchema.field_name f = k /\
    (raw = PNone \/
     exists v, CompanySchema.deserialize_value (CompanySchema.field_type f) raw
               = CompanySchema.Value v).
Proof.
  intros (d' & [= <-] & _ & Hf & Hkeys)%load_inr Hd.
  apply Hkeys in Hd as Hk. apply list_elem_of_fmap in Hk as (f & [= ->] & Hin).
  exists f. split; [done|]. split; [done|].
  eapply load_field_supplied; [|done]. intros msgs. by apply Hf.
Qed.

(** Every value of a payload that loads, [is_active] and [employees_count]
    apart, is a string or null. *)
Lemma load_inr_text tbl partial d data k :
  CompanySchema.load tbl partial (Obj d) = inr data ->
  k <> "is_active" -> k <> "employees_count" ->
  is_text (dict_get k d) = true.
Proof.
  intros Hload H1 H2. unfold dict_get.
  destruct (d !! Some k) as [raw|] eqn:Ed; [|done]. cbn [default].
  destruct (load_inr_field _ _ _ _ _ _ Hload Ed) as (f & Hin & <- & Hraw).
  destruct Hraw as [->|[v Hv]]; [done|].
  unfold CompanySchema.load_fields in Hin.
  each_member Hin; subst f; cbn in H1, H2, Hv; try done;
    by destruct raw.
Qed.

(** Its [employees_count], when supplied, is null, an integer that is not
    negative, or a string that [int()] reads. *)
Lemma load_inr_employees_count tbl partial d data raw :
  CompanySchema.load tbl partial (Obj d) = inr data ->
  d !! Some "employees_count" = Some raw ->
  match raw with
  | PNone | PInt _ => True
  | PStr s => is_Some (py_int_of_string s)
  | _ => False
  end.
Proof.
  intros Hload Hd.
  destruct (load_inr_field _ _ _ _ _ _ Hload Hd) as (f & Hin & Hname & Hraw).
  destruct Hraw as [->|[v Hv]]; [done|].
  unfold CompanySchema.load_fields in Hin.
  each_member Hin; subst f; cbn in Hname; try discriminate Hname.
  cbn in Hv. destruct raw as [|b|z|s|]; try done.
  destruct (py_int_of_string s); [eauto | done].
Qed.

(** The [Integer] column refuses an integer beyond 64 bits and nothing else
    a payload that loads can hold. *)
Lemma bind_integer_inl e raw f :
  match raw with PBool _ | POther => False | _ => True end ->
  Company.bind_integer e raw = inl f -> exists z, f = TooLarge z.
Proof.
  destruct raw as [|b|z|s|]; try done; cbn.
  - destruct (Company.int64 z); [done|]. intros _ [= <-]. eauto.
  - intros _. by repeat case_match.
Qed.

Lemma load_inr_count_fails tbl partial d data e f :
  CompanySchema.load tbl partial (Obj d) = inr data ->
  Company.bind_integer e (dict_get_or "employees_count" (PInt 0) d) = inl f ->
  exists z, f = TooLarge z.
Proof.
  intros Hload. apply bind_integer_inl. unfold dict_get_or.
  destruct (d !! Some "employees_count") as [raw|] eqn:Ed; [|done].
  pose proof (load_inr_employees_count _ _ _ _ _ Hload Ed) as Hraw.
  by destruct raw.
Qed.

(** ** The instance [post] builds *)

Lemma full_kwargs_text d k :
  k ∈ ["description"; "address"; "phone_number"; "email"; "website";
       "logo_url"; "registration_number"; "tax_id"; "country"; "city";
       "postal_code"] ->
  kwarg k PNone (full_kwargs d) = dict_get k d.
Proof.
  intros Hin. unfold kwarg.
  rewrite (full_kwargs_Some d k (dict_get k d)); [done|].
  unfold full_arguments.
  each_member Hin; subst k;
    repeat first [apply list_elem_of_here | apply list_elem_of_further].
Qed.

(** The values [post] hands to the columns. *)
Lemma post_instance_settable e name d k proj :
  (k, proj) ∈ settable_fields ->
  proj (Company.with_default_is_active
          (Company.new e 0 name (full_kwargs d)))
  = if bool_decide (k = "name") then name
    else if bool_decide (k = "is_active") then PBool true
    else if bool_decide (k = "employees_count")
         then dict_get_or "employees_count" (PInt 0) d
    else if bool_decide (k ∈ ["parent_id"; "organization_id"]) then PNone
    else dict_get k d.
Proof.
  intros Hin. unfold settable_fields in Hin.
  each_member Hin; injection Hin as -> ->;
    cbn [Company.with_default_is_active Company.new Company.name
         Company.description Company.logo_url Company.parent_id
         Company.organization_id Company.address Company.email
         Company.phone_number Company.website Company.is_active
         Company.registration_number Company.tax_id Company.country
         Company.city Company.postal_code Company.employees_count];
    rewrite ?full_kwargs_text by text_key;
    reflexivity.
Qed.

(** Every column but [employees_count] keeps the value [post] hands it. *)
Lemma post_instance_bind e s d tbl partial data k proj :
  CompanySchema.load tbl partial (Obj d) = inr data ->
  (k, proj) ∈ settable_fields -> k <> "employees_count" ->
  let c := Company.with_default_is_active
             (Company.new e 0 (PStr s) (full_kwargs d)) in
  column_bind e k (proj c) = inr (proj c).
Proof.
  intros Hload Hin Hk c. subst c.
  rewrite (post_instance_settable _ _ _ k) by done.
  destruct (decide (k = "name")) as [->|Hn]; [done|].
  rewrite (bool_decide_eq_false_2 (k = "name")) by done.
  destruct (decide (k = "is_active")) as [->|Ha]; [done|].
  rewrite (bool_decide_eq_false_2 (k = "is_active")) by done.
  rewrite (bool_decide_eq_false_2 (k = "employees_count")) by done.
  apply column_bind_text; [done..|].
  case_bool_decide; [done|]. by eapply load_inr_text.
Qed.

(** The row [post] commits: the instance with what the [Integer] column
    makes of its [employees_count]. *)
Lemma post_stored e s d tbl partial data n :
  CompanySchema.load tbl partial (Obj d) = inr data ->
  Company.bind_integer e (dict_get_or "employees_count" (PInt 0) d) = inr n ->
  exists row,
    Company.stored e (Company.with_default_is_active
                        (Company.new e 0 (PStr s) (full_kwargs d))) = inr row /\
    Company.id row = uuid4 e 0 /\
    Company.name row = PStr s /\
    Company.parent_id row = PNone /\
    Company.organization_id row = PNone /\
    Company.is_active row = PBool true /\
    Company.employees_count row = n.
Proof.
  intros Hload Hn.
  set (c := Company.with_default_is_active _).
  assert (column_bind e "employees_count" (Company.employees_count c) = inr n)
    as Hcount.
  { subst c. by rewrite (post_instance_settable _ _ _ "employees_count")
      by settable_member. }
  destruct (stored_is_inr e c) as [row Hrow].
  { intros k proj Hin. destruct (decide (k = "employees_count")) as [->|Hk].
    - apply settable_employees_count in Hin as ->. eauto.
    - eexists. by eapply (post_instance_bind e s d tbl partial data k proj). }
  exists row. split; [done|].
  destruct (stored_inr _ _ _ Hrow) as (Hid & _ & _ & Hcols).
  split; [by rewrite Hid|].
  assert (forall k proj, (k, proj) ∈ settable_fields ->
            k <> "employees_count" -> proj row = proj c) as Hsame.
  { intros k proj Hin Hk. specialize (Hcols k proj Hin).
    pose proof (post_instance_bind e s d tbl partial data k proj
                  Hload Hin Hk) as Hb.
    cbv zeta in Hb. unfold c in Hcols. rewrite Hb in Hcols.
    by injection Hcols as <-. }
  rewrite (Hsame "name" Company.name) by (settable_member || done).
  rewrite (Hsame "parent_id" Company.parent_id) by (settable_member || done).
  rewrite (Hsame "organization_id" Company.organization_id)
    by (settable_member || done).
  rewrite (Hsame "is_active" Company.is_active) by (settable_member || done).
  subst c.
  rewrite (post_instance_settable _ _ _ "name") by settable_member.
  rewrite (post_instance_settable _ _ _ "parent_id") by settable_member.
  rewrite (post_instance_settable _ _ _ "organization_id") by settable_member.
  rewrite (post_instance_settable _ _ _ "is_active") by settable_member.
  do 4 (split; [done|]).
  specialize (Hcols "employees_count" Company.employees_count
                ltac:(settable_member)).
  rewrite Hcount in Hcols. by injection Hcols as <-.
Qed.

(** The commit of [post] fails when the [Integer] column refuses the
    [employees_count]. *)
Lemma post_stored_fails e s d tbl partial data f :
  CompanySchema.load tbl partial (Obj d) = inr data ->
  Company.bind_integer e (dict_get_or "employees_count" (PInt 0) d) = inl f ->
  Company.stored e (Company.with_default_is_active
                      (Company.new e 0 (PStr s) (full_kwargs d))) = inl f.
Proof.
  intros Hload Hf.
  set (c := Company.with_default_is_active _).
  assert (column_bind e "employees_count" (Company.employees_count c) = inl f)
    as Hcount.
  { subst c. by rewrite (post_instance_settable _ _ _ "employees_count")
      by settable_member. }
  destruct (Company.stored e c) as [f'|row] eqn:Es.
  - apply stored_inl in Es as (k & proj & Hin & Hk).
    destruct (decide (k = "employees_count")) as [->|Hne].
    + apply settable_employees_count in Hin as ->. congruence.
    + pose proof (post_instance_bind e s d tbl partial data k proj
                    Hload Hin Hne) as Hb.
      cbv zeta in Hb. unfold c in Hk. rewrite Hb in Hk. discriminate Hk.
  - destruct (stored_inr _ _ _ Es) as (_ & _ & _ & Hcols).
    specialize (Hcols "employees_count" Company.employees_count
                  ltac:(settable_member)).
    congruence.
Qed.

(** C9.  Take a payload that passes validation, the identifier drawn being
    new.  Whatever the payload supplies for [parent_id], [organization_id]
    and [is_active], [post] hands [Company.create] none of them, and hands
    it 0 for an [employees_count] that is absent.  When the [Integer]
    column takes the [employees_count] handed over, the answer is 201 with
    the created record, which is the one row added to the table: its
    [parent_id] and [organization_id] are null, its [is_active] is true,
    its [employees_count] is what the column stores, and that is 0 when the
    payload has no [employees_count].  Otherwise (an integer beyond 64
    bits) the commit raises, nothing is created and the exception leaves
    [post]. *)
Theorem post_never_persists_hierarchy_fields (e : Env) (d : pydict)
    (tbl : Company.table) (data : kwargs) :
  CompanySchema.load tbl false (Obj d) = inr data ->
  Company.get_by_id (uuid4 e 0) tbl = None ->
  match Company.bind_integer e (dict_get_or "employees_count" (PInt 0) d) with
  | inr n =>
      exists c,
        CompanyListResource.post e (Obj d) tbl
        = ((Dump c, 201%nat), tbl ++ [c]) /\
        Company.parent_id c = PNone /\
        Company.organization_id c = PNone /\
        Company.is_active c = PBool true /\
        Company.employees_count c = n /\
        (d !! Some "employees_count" = None ->
         Company.employees_count c = PInt 0)
  | inl f =>
      CompanyListResource.post e (Obj d) tbl
      = ((Uncaught (str_error e f), 500%nat), tbl)
  end.
Proof.
  intros Hload Hfresh.
  pose proof (load_inr_name _ _ _ _ Hload) as Hname.
  destruct (d !! Some "name") as [v|] eqn:Ed; [|done].
  destruct Hname as (s & -> & _).
  assert (getitem "name" d = PStr s) as Hget.
  { unfold getitem, dict_get. by rewrite Ed. }
  unfold CompanyListResource.post. rewrite Hload. cbn [obj_of].
  rewrite Hget. unfold Company.create, Company.insert_row.
  destruct (Company.bind_integer e _) as [f|n] eqn:Eb.
  - rewrite (post_stored_fails e s d tbl false data f Hload Eb).
    destruct (load_inr_count_fails _ _ _ _ _ _ Hload Eb) as [z ->].
    reflexivity.
  - destruct (post_stored e s d tbl false data n Hload Eb)
      as (row & -> & Hid & Hn & Hp & Ho & Ha & Hc).
    rewrite Hn, Hid, Hfresh. cbn [is_not_none negb].
    rewrite bool_decide_eq_false_2 by (by intros [? ?]).
    exists row. do 5 (split; [done|]).
    intros Habs. rewrite Hc. unfold dict_get_or in Eb. rewrite Habs in Eb.
    cbn in Eb. by injection Eb as <-.
Qed.

Lemma update_attrs_settable self kw stamp k proj :
  (k, proj) ∈ settable_fields ->
  proj (Company.update_attrs self kw stamp)
  = Company.assign_if_not_none (kwarg k PNone kw) (proj self).
Proof.
  intros H. unfold settable_fields in H.
  each_member H; injection H as -> ->; reflexivity.
Qed.

Lemma update_attrs_id self kw stamp :
  Company.id (Company.update_attrs self kw stamp) = Company.id self.
Proof. reflexivity. Qed.

Lemma update_attrs_created_at self kw stamp :
  Company.created_at (Company.update_attrs self kw stamp)
  = Company.created_at self.
Proof. reflexivity. Qed.

Lemma update_attrs_updated_at self kw stamp :
  Company.updated_at (Company.update_attrs self kw stamp) = Some stamp.
Proof. reflexivity. Qed.

Lemma get_by_id_replace_row cid c c' tbl :
  Company.get_by_id cid tbl = Some c -> Company.id c' = cid ->
  Company.get_by_id cid (Company.replace_row c' tbl) = Some c'.
Proof.
  intros Hget Hid. unfold Company.get_by_id in *.
  induction tbl as [|r tbl IH]; simpl in *; [done|].
  rewrite Hid. destruct (bool_decide (Company.id r = cid)) eqn:E.
  - simpl. by rewrite Hid, bool_decide_eq_true_2.
  - simpl. rewrite E. by apply IH.
Qed.

(** The row a successful UPDATE leaves: an attribute that was not assigned
    a new value keeps the stored one, the others hold what their columns
    make of the value assigned. *)
Lemma flushed_inr (e : Env) (old new row : Company.t) :
  Company.flushed e old new = inr row ->
  Company.id row = Company.id new /\
  Company.created_at row = Company.created_at new /\
  Company.updated_at row = Company.updated_at new /\
  forall k proj, (k, proj) ∈ settable_fields ->
    Company.changed (column_bind e k) (proj old) (proj new) = inr (proj row).
Proof.
  unfold Company.flushed. unfold_bind.
  repeat match goal with
         | |- context [match ?x with inl _ => _ | inr _ => _ end] =>
             destruct x eqn:?; [discriminate|]
         end.
  intros [= <-]. cbn [Company.id Company.created_at Company.updated_at].
  do 3 (split; [done|]). intros k proj Hin. unfold settable_fields in Hin.
  each_member Hin; injection Hin as -> ->; done.
Qed.

Lemma update_inr e self kw stamp tbl c' tbl' :
  Company.update e self kw stamp tbl = inr (c', tbl') ->
  Company.flushed e self (Company.update_attrs self kw stamp) = inr c' /\
  Company.name c' <> PNone /\
  tbl' = Company.replace_row c' tbl.
Proof.
  unfold Company.update, Company.update_row.
  destruct (Company.flushed _ _ _) as [f|row]; [done|].
  destruct (is_not_none (Company.name row)) eqn:En; [|done].
  cbn [negb]. intros [= <- <-]. split; [done|]. split; [|done].
  intros E. by rewrite E in En.
Qed.

(** What an update leaves in each attribute, given the keyword arguments
    it is called with. *)
Lemma update_settable e self kw stamp tbl c' tbl' k proj :
  Company.update e self kw stamp tbl = inr (c', tbl') ->
  (k, proj) ∈ settable_fields ->
  match kw !! k with
  | None | Some PNone => proj c' = proj self
  | Some v =>
      if decide (v = proj self) then proj c' = v
      else column_bind e k v = inr (proj c')
  end.
Proof.
  intros (Hf & _ & _)%update_inr Hin.
  destruct (flushed_inr _ _ _ _ Hf) as (_ & _ & _ & Hcols).
  specialize (Hcols k proj Hin).
  rewrite (update_attrs_settable _ _ _ k) in Hcols by done.
  unfold kwarg, Company.changed in Hcols.
  destruct (kw !! k) as [v|]; cbn [default] in Hcols.
  - destruct v; cbn [Company.assign_if_not_none is_not_none] in Hcols;
      unfold Company.assign_if_not_none in Hcols; cbn [is_not_none] in Hcols;
      repeat case_decide; try done; by injection Hcols as <-.
  - unfold Company.assign_if_not_none in Hcols; cbn [is_not_none] in Hcols.
    rewrite decide_True in Hcols by done. by injection Hcols as <-.
Qed.

Lemma foldl_patch_lookup (d : pydict) (l : list (string * (pydict -> pyval))) acc k :
  (forall k' rhs v, (k', rhs) ∈ l -> d !! Some k' = Some v -> rhs d = v) ->
  foldl (CompanyResource.patch_step d) acc l !! k
  = if decide (k ∈ l.*1) then from_option Some (acc !! k) (d !! Some k)
    else acc !! k.
Proof.
  revert acc. induction l as [|[k' rhs] l IH]; intros acc Hrhs.
  - cbn [foldl]. destruct (decide _) as [H|]; [by apply elem_of_nil in H|done].
  - cbn [foldl]. rewrite IH; last first.
    { intros ??? Hin. apply Hrhs. by right. }
    assert (CompanyResource.patch_step d acc (k', rhs) !! k
            = if decide (k = k') then from_option Some (acc !! k) (d !! Some k)
              else acc !! k) as Hstep.
    { unfold CompanyResource.patch_step, has_key. destruct (decide (k = k')) as [->|Hne].
      - destruct (d !! Some k') as [v|] eqn:Ed.
        + rewrite bool_decide_eq_true_2 by eauto.
          rewrite lookup_insert_eq. simpl. f_equal.
          eapply Hrhs; [left|done].
        + rewrite bool_decide_eq_false_2 by (by intros [? ?]). done.
      - destruct (bool_decide _); [|done]. by rewrite lookup_insert_ne. }
    rewrite Hstep, fmap_cons. cbn [fst].
    destruct (decide (k ∈ l.*1)) as [Hin|Hnin], (decide (k = k')) as [Heq|Hne],
      (decide (k ∈ k' :: l.*1)) as [Hc|Hn];
      try (exfalso; apply Hn; apply elem_of_cons; by auto);
      try (by destruct (d !! Some k)).
    exfalso. apply elem_of_cons in Hc as [Hc|Hc]; done.
Qed.

Lemma patch_keys_rhs (d : pydict) k rhs v :
  (k, rhs) ∈ CompanyResource.patch_keys -> d !! Some k = Some v -> rhs d = v.
Proof.
  intros H Hd. unfold CompanyResource.patch_keys in H.
  each_member H; injection H as -> ->;
    unfold getitem, dict_get, dict_get_or; by rewrite Hd.
Qed.

Lemma settable_patch_keys k proj :
  (k, proj) ∈ settable_fields -> k ∈ CompanyResource.patch_keys.*1.
Proof.
  intros H. unfold settable_fields in H.
  each_member H; injection H as -> _;
    apply (bool_decide_unpack _); vm_compute; reflexivity.
Qed.

Lemma update_kwargs_lookup (d : pydict) k :
  k ∈ CompanyResource.patch_keys.*1 ->
  CompanyResource.update_kwargs d !! k = d !! Some k.
Proof.
  intros Hin. unfold CompanyResource.update_kwargs.
  rewrite foldl_patch_lookup by apply patch_keys_rhs.
  rewrite decide_True by done. rewrite lookup_empty.
  by destruct (d !! Some k).
Qed.

Lemma column_keeps_bind (e : Env) (k : string) (v : pyval) :
  column_keeps k v = true -> column_bind e k v = inr v.
Proof.
  unfold column_keeps, column_bind.
  repeat case_bool_decide; destruct v; try done.
  cbn. by intros ->.
Qed.

(** C4, as amended.  For every existing company and every payload on which
    PATCH succeeds (status 200): the row found afterwards under the
    identifier is the one returned, its identifier and creation stamp are
    those of the prior row, and for each of the sixteen attributes a
    client can set: an attribute absent from the payload or supplied as
    null keeps its prior value; an attribute supplied with a non-null
    value equal to the prior one keeps it; an attribute supplied with
    another non-null value holds what its column makes of that value,
    which is the supplied value itself when it is of the type of the
    column. *)
Theorem patch_touches_only_supplied_non_null_fields (e : Env)
    (company_id : string) (d : pydict) (tbl tbl' : Company.table)
    (c c' : Company.t) :
  Company.get_by_id company_id tbl = Some c ->
  CompanyResource.patch e company_id (Obj d) tbl
  = ((Dump c', 200%nat), tbl') ->
  Company.get_by_id company_id tbl' = Some c' /\
  Company.id c' = Company.id c /\
  Company.created_at c' = Company.created_at c /\
  forall k proj, (k, proj) ∈ settable_fields ->
    match d !! Some k with
    | None | Some PNone => proj c' = proj c
    | Some v =>
        (if decide (v = proj c) then proj c' = v
         else column_bind e k v = inr (proj c')) /\
        (column_keeps k v = true -> proj c' = v)
    end.
Proof.
  intros Hget. unfold CompanyResource.patch.
  destruct (CompanySchema.load tbl true (Obj d)); [done|].
  rewrite Hget.
  destruct (Company.update _ _ _ _ _) as [err|[c1 tbl1]] eqn:Eu.
  { by destruct err. }
  intros [= -> ->].
  pose proof (update_inr _ _ _ _ _ _ _ Eu) as (Hf & _ & ->).
  destruct (flushed_inr _ _ _ _ Hf) as (Hid & Hcreated & _ & _).
  rewrite update_attrs_id in Hid. rewrite update_attrs_created_at in Hcreated.
  apply get_by_id_Some in Hget as Hc. destruct Hc as [_ Hcid].
  split.
  { eapply get_by_id_replace_row; [done|]. by rewrite Hid. }
  split; [done|]. split; [done|].
  intros k proj Hk.
  pose proof (update_settable _ _ _ _ _ _ _ k proj Eu Hk) as Hset.
  cbn [obj_of] in Hset.
  rewrite update_kwargs_lookup in Hset by (by eapply settable_patch_keys).
  destruct (d !! Some k) as [v|]; [|done].
  destruct v; try done; (split; [done|]); intros Hkeeps;
    (case_decide; [done|]);
    rewrite (column_keeps_bind e) in Hset by done; by injection Hset as <-.
Qed.

(** ** Requests *)

Lemma unique_names_insert (c : Company.t) (tbl : Company.table) :
  unique_names tbl -> Company.name c ∉ Company.name <$> tbl ->
  unique_names (tbl ++ [c]).
Proof.
  unfold unique_names. intros Hnd Hnew. rewrite fmap_app.
  apply NoDup_app. split; [done|]. split; [|apply NoDup_singleton].
  intros x Hx ->%list_elem_of_singleton. done.
Qed.

Lemma replace_row_names_subseteq (c : Company.t) (tbl : Company.table) :
  Company.name <$> Company.replace_row c tbl
  ⊆ Company.name c :: (Company.name <$> tbl).
Proof.
  induction tbl as [|r tbl IH]; cbn [Company.replace_row].
  - by apply list_subseteq_nil.
  - destruct (bool_decide _); rewrite !fmap_cons.
    + intros x [->|Hx]%elem_of_cons; [left|right; by right].
    + intros x [->|Hx]%elem_of_cons; [right; left|].
      apply IH in Hx. apply elem_of_cons in Hx as [->|Hx]; [left|].
      right. by right.
Qed.

(** Replacing a row keeps the names distinct when the name of the new row
    is not in the table, or is the name of the row it replaces. *)
Lemma unique_names_replace (c : Company.t) (tbl : Company.table) :
  unique_names tbl ->
  Company.name c ∉ Company.name <$> tbl \/
  (exists r, Company.get_by_id (Company.id c) tbl = Some r /\
             Company.name r = Company.name c) ->
  unique_names (Company.replace_row c tbl).
Proof.
  unfold unique_names, Company.get_by_id.
  induction tbl as [|r tbl IH]; intros Hnd Hc; [done|].
  rewrite fmap_cons in Hnd. apply NoDup_cons in Hnd as [Hr Hnd].
  cbn [Company.replace_row]. cbn [find] in Hc.
  destruct (bool_decide (Company.id r = Company.id c)) eqn:E.
  - rewrite fmap_cons. apply NoDup_cons. split; [|done].
    destruct Hc as [Hc|(r' & [= <-] & Hn)].
    + rewrite fmap_cons in Hc. by apply not_elem_of_cons in Hc as [_ ?].
    + by rewrite <- Hn.
  - rewrite fmap_cons. apply NoDup_cons. split.
    + intros Hin. apply replace_row_names_subseteq in Hin.
      apply elem_of_cons in Hin as [Hin|Hin]; [|done].
      destruct Hc as [Hc|(r' & Hfind & Hn)].
      * rewrite fmap_cons in Hc. apply not_elem_of_cons in Hc as [? _].
        congruence.
      * apply find_some in Hfind as [Hr' _]. apply Hr.
        rewrite Hin, <- Hn. apply list_elem_of_fmap_2.
        by apply list_elem_of_In.
    + apply IH; [done|]. destruct Hc as [Hc|Hc]; [|by right].
      left. rewrite fmap_cons in Hc. by apply not_elem_of_cons in Hc as [_ ?].
Qed.

Lemma delete_row_sublist (c : Company.t) (tbl : Company.table) :
  Company.delete_row c tbl `sublist_of` tbl.
Proof.
  induction tbl as [|r tbl IH]; cbn [Company.delete_row]; [done|].
  destruct (bool_decide _); [by apply sublist_cons | by apply sublist_skip].
Qed.

Lemma unique_names_delete (c : Company.t) (tbl : Company.table) :
  unique_names tbl -> unique_names (Company.delete_row c tbl).
Proof.
  unfold unique_names. intros Hnd.
  pose proof (fmap_sublist Company.name _ _ (delete_row_sublist c tbl)) as Hs.
  exact (sublist_NoDup _ _ Hnd Hs).
Qed.

(** *** Each resource keeps the names distinct *)

Lemma post_unique_names e json_data tbl :
  unique_names tbl ->
  unique_names (snd (CompanyListResource.post e json_data tbl)).
Proof.
  intros Hu. unfold CompanyListResource.post.
  destruct (CompanySchema.load tbl false json_data) as [|data] eqn:El;
    [done|].
  destruct (load_inr _ _ _ _ El) as (d & -> & _).
  destruct (load_inr_attr_name _ _ _ El) as (s & Hd & _ & Hnew).
  unfold obj_of, getitem, dict_get. rewrite Hd.
  change (default PNone (Some (PStr s))) with (PStr s).
  destruct (Company.create _ _ _ _ _) as [err|[c tbl']] eqn:Ec; [done|].
  pose proof (create_inr_name _ _ _ _ _ _ _ Ec) as Hn.
  apply create_inr_inv in Ec as (_ & _ & _ & ->). cbn [snd].
  apply unique_names_insert; [done|]. by rewrite Hn.
Qed.

Lemma update_unique_names e self kw stamp tbl :
  unique_names tbl ->
  Company.get_by_id (Company.id self) tbl = Some self ->
  match kw !! "name" with
  | None | Some PNone => True
  | Some v => (exists s, v = PStr s) /\ v ∉ Company.name <$> tbl
  end ->
  match Company.update e self kw stamp tbl with
  | inl _ => True
  | inr (_, tbl') => unique_names tbl'
  end.
Proof.
  intros Hu Hget Hkw.
  destruct (Company.update _ _ _ _ _) as [|[c' tbl']] eqn:Eu; [done|].
  pose proof (update_settable _ _ _ _ _ _ _ "name" Company.name Eu
                ltac:(settable_member)) as Hname.
  apply update_inr in Eu as (Hf & _ & ->).
  destruct (flushed_inr _ _ _ _ Hf) as (Hid & _).
  rewrite update_attrs_id in Hid.
  apply unique_names_replace; [done|]. rewrite Hid.
  destruct (kw !! "name") as [v|]; [|by eauto].
  destruct v; try (by eauto); destruct Hkw as [[s' [= ->]] Hnew].
  left. case_decide as Hd; [by rewrite Hname|].
  cbn in Hname. by injection Hname as <-.
Qed.

Lemma put_kwargs_name d :
  (<["name" := getitem "name" d]> (full_kwargs d) : kwargs) !! "name"
  = Some (getitem "name" d).
Proof. apply lookup_insert_eq. Qed.

Lemma put_unique_names e company_id json_data tbl :
  unique_names tbl ->
  unique_names (snd (CompanyResource.put e company_id json_data tbl)).
Proof.
  intros Hu. unfold CompanyResource.put.
  destruct (CompanySchema.load tbl false json_data) as [|data] eqn:El;
    [done|].
  destruct (load_inr _ _ _ _ El) as (d & -> & _).
  destruct (load_inr_attr_name _ _ _ El) as (s & Hd & _ & Hnew).
  destruct (Company.get_by_id company_id tbl) as [c|] eqn:Eg; [|done].
  pose proof (get_by_id_Some _ _ _ Eg) as [_ Hid]. rewrite <- Hid in Eg.
  pose proof (update_unique_names e c
                (<["name" := getitem "name" (obj_of (Obj d))]>
                   (full_kwargs (obj_of (Obj d))))
                (now e 0) tbl Hu Eg) as Hup.
  rewrite put_kwargs_name in Hup. unfold obj_of, getitem, dict_get in Hup.
  rewrite Hd in Hup. cbn [default] in Hup.
  specialize (Hup (conj (ex_intro _ s eq_refl) Hnew)).
  unfold obj_of, getitem, dict_get. rewrite Hd.
  unfold obj_of, getitem, dict_get in Hup.
  destruct (Company.update _ _ _ _ _) as [|[c' tbl']]; done.
Qed.

Lemma name_in_patch_keys : "name" ∈ CompanyResource.patch_keys.*1.
Proof. apply (bool_decide_unpack _). vm_compute. reflexivity. Qed.

Lemma patch_unique_names e company_id json_data tbl :
  unique_names tbl ->
  unique_names (snd (CompanyResource.patch e company_id json_data tbl)).
Proof.
  intros Hu. unfold CompanyResource.patch.
  destruct (CompanySchema.load tbl true json_data) as [|data] eqn:El;
    [done|].
  destruct (load_inr _ _ _ _ El) as (d & -> & _).
  pose proof (load_inr_name _ _ _ _ El) as Hname.
  destruct (Company.get_by_id company_id tbl) as [c|] eqn:Eg; [|done].
  pose proof (get_by_id_Some _ _ _ Eg) as [_ Hid]. rewrite <- Hid in Eg.
  pose proof (update_unique_names e c (CompanyResource.update_kwargs d)
                (now e 0) tbl Hu Eg) as Hup.
  rewrite (update_kwargs_lookup d "name" name_in_patch_keys) in Hup.
  unfold obj_of.
  destruct (Company.update _ _ _ _ _) as [|[c' tbl']]; [done|].
  apply Hup. destruct (d !! Some "name") as [v|]; [|done].
  destruct Hname as (s & -> & _ & Hnew & _).
  split; [by eauto | by apply get_by_name_None].
Qed.

Lemma delete_unique_names company_id tbl :
  unique_names tbl ->
  unique_names (snd (CompanyResource.delete company_id tbl)).
Proof.
  intros Hu. unfold CompanyResource.delete.
  destruct (Company.get_by_id company_id tbl); [|done].
  by apply unique_names_delete.
Qed.

(** Whatever way the loop ends, the table it leaves has distinct names. *)
Lemma import_loop_unique_names e items : forall idx p,
  unique_names (rows p) ->
  match import_loop e idx items p with
  | inl (_, tbl') => unique_names tbl'
  | inr p' => unique_names (rows p')
  end.
Proof.
  induction items as [|item items IH]; intros idx p Hu; [done|].
  cbn [import_loop].
  destruct (CompanySchema.load (rows p) false item) as [|data] eqn:El.
  - by apply IH.
  - destruct (load_inr _ _ _ _ El) as (d & -> & _).
    destruct (load_inr_attr_name _ _ _ El) as (s & _ & Hs & Hnew).
    rewrite Hs.
    destruct (Company.create _ _ _ _ _) as [err|[c tbl']] eqn:Ec; [done|].
    pose proof (create_inr_name _ _ _ _ _ _ _ Ec) as Hn.
    apply create_inr_inv in Ec as (_ & _ & _ & ->). apply IH. cbn [rows].
    apply unique_names_insert; [done|]. by rewrite Hn.
Qed.

Lemma import_json_unique_names e file tbl :
  unique_names tbl ->
  unique_names (snd (ImportJSONResource.post e file tbl)).
Proof.
  intros Hu. unfold ImportJSONResource.post, import_items.
  destruct file as [file|]; [|done].
  destruct (bool_decide _); [done|].
  destruct (ImportJSONResource.document file) as [|data|]; try done.
  pose proof (import_loop_unique_names e data 0 (mkProgress 0 [] tbl) Hu).
  destruct (import_loop _ _ _ _) as [[[] ?]|]; done.
Qed.

Lemma import_csv_unique_names e file tbl :
  unique_names tbl ->
  unique_names (snd (ImportCSVResource.post e file tbl)).
Proof.
  intros Hu. unfold ImportCSVResource.post.
  destruct file as [file|]; [|done].
  destruct (bool_decide _); [done|].
  destruct (ImportCSVResource.stream file) as [msg|text]; [done|].
  destruct (csv.DictReader _) as [reader csv_error].
  pose proof (import_loop_unique_names e
                (Obj ∘ ImportCSVResource.row_data <$> reader) 0
                (mkProgress 0 [] tbl) Hu).
  destruct (import_loop _ _ _ _) as [[[] ?]|]; [done..|].
  by destruct csv_error.
Qed.

Lemma handle_unique_names e r tbl :
  unique_names tbl -> unique_names (snd (handle e r tbl)).
Proof.
  intros Hu. destruct r; cbn [handle].
  - done.
  - by apply post_unique_names.
  - unfold CompanyResource.get. by destruct (Company.get_by_id _ _).
  - by apply put_unique_names.
  - by apply patch_unique_names.
  - by apply delete_unique_names.
  - done.
  - by apply import_json_unique_names.
  - by apply import_csv_unique_names.
Qed.

Lemma new_other_attributes e k name1 name2 kw k' proj :
  (k', proj) ∈ settable_fields -> k' <> "name" ->
  proj (Company.with_default_is_active (Company.new e k name1 kw))
  = proj (Company.with_default_is_active (Company.new e k name2 kw)).
Proof.
  intros Hin Hk. unfold settable_fields in Hin.
  each_member Hin; injection Hin as -> ->; done.
Qed.

(** The insert does not look at the name: what succeeds under one name
    succeeds under any other. *)
Lemma create_any_name e k s1 s2 kw tbl row tbl' :
  Company.create e k (PStr s1) kw tbl = inr (row, tbl') ->
  exists row2,
    Company.create e k (PStr s2) kw tbl = inr (row2, tbl ++ [row2]) /\
    Company.name row2 = PStr s2.
Proof.
  intros (Hs & _ & Hfresh & _)%create_inr_inv.
  destruct (stored_inr _ _ _ Hs) as (_ & _ & _ & Hcols).
  destruct (stored_is_inr e (Company.with_default_is_active
                               (Company.new e k (PStr s2) kw)))
    as [row2 Hrow2].
  { intros k' proj Hin. destruct (decide (k' = "name")) as [->|Hne].
    - assert (proj = Company.name) as ->.
      { unfold settable_fields in Hin.
        each_member Hin; first [discriminate Hin | by injection Hin as <-]. }
      by exists (PStr s2).
    - rewrite <- (new_other_attributes e k (PStr s1) (PStr s2) kw k' proj)
        by done.
      eauto. }
  exists row2. split; [by apply create_inr|].
  by eapply stored_name.
Qed.

(** C1, as amended.  In every table the service can reach from the empty
    one through its requests, no two rows have the same name.  This is the
    work of the validation that precedes each insert and update, not of
    the storage layer, which declares no such constraint: an insert under
    the name of an existing row is committed whenever the same insert is
    committed under another name, and leaves the name twice in the
    table. *)
Theorem names_unique_by_validation_only :
  (forall tbl, reachable tbl -> unique_names tbl) /\
  (forall e k kw tbl r s s' row tbl',
     r ∈ tbl -> Company.name r = PStr s ->
     Company.create e k (PStr s') kw tbl = inr (row, tbl') ->
     exists row2,
       Company.create e k (PStr s) kw tbl = inr (row2, tbl ++ [row2]) /\
       Company.name row2 = Company.name r /\
       ~ unique_names (tbl ++ [row2])).
Proof.
  split.
  - induction 1 as [|e r tbl _ IH]; [apply NoDup_nil_2|].
    by apply handle_unique_names.
  - intros e k kw tbl r s s' row tbl' Hr Hname Hc.
    destruct (create_any_name e k s' s kw tbl row tbl' Hc)
      as (row2 & Hc2 & Hn2).
    exists row2. split; [done|]. split; [congruence|].
    unfold unique_names. rewrite fmap_app. intros Hnd.
    apply NoDup_app in Hnd as (_ & Hdisj & _).
    apply (Hdisj (PStr s)).
    + rewrite <- Hname. by apply list_elem_of_fmap_2.
    + cbn. rewrite Hn2. apply list_elem_of_here.
Qed.

(** ** Rows whose values have the type of their column *)

Lemma column_bind_well_typed (e : Env) (k : string) (v v' : pyval) :
  well_typed k v = true -> column_bind e k v = inr v' -> v' = v.
Proof.
  unfold well_typed, column_bind.
  repeat case_bool_decide; destruct v; try done; cbn;
    try (by intros _ [= <-]).
  destruct (Company.int64 z); [|done]. by intros _ [= <-].
Qed.

Lemma column_bind_fits (e : Env) (k : string) (v : pyval) :
  well_typed k v = true -> fits v = true -> column_bind e k v = inr v.
Proof.
  unfold well_typed, column_bind, fits.
  repeat case_bool_decide; destruct v; try done; cbn.
  by intros _ ->.
Qed.

Lemma column_bind_well_typed_inl (e : Env) (k : string) (v : pyval)
    (f : failure) :
  well_typed k v = true -> column_bind e k v = inl f ->
  k = "employees_count" /\ exists z, v = PInt z /\ f = TooLarge z /\
    Company.int64 z = false.
Proof.
  unfold well_typed, column_bind.
  repeat case_bool_decide; destruct v; try done; cbn.
  destruct (Company.int64 z) eqn:E; [done|]. intros _ [= <-]. eauto.
Qed.

(** Two rows with the same attributes are the same row. *)
Lemma Company_ext (c1 c2 : Company.t) :
  Company.id c1 = Company.id c2 ->
  Company.created_at c1 = Company.created_at c2 ->
  Company.updated_at c1 = Company.updated_at c2 ->
  (forall k proj, (k, proj) ∈ settable_fields -> proj c1 = proj c2) ->
  c1 = c2.
Proof.
  intros Hid Hc Hu Hall.
  pose proof (Hall "name" Company.name ltac:(settable_member)).
  pose proof (Hall "description" Company.description ltac:(settable_member)).
  pose proof (Hall "logo_url" Company.logo_url ltac:(settable_member)).
  pose proof (Hall "parent_id" Company.parent_id ltac:(settable_member)).
  pose proof (Hall "organization_id" Company.organization_id
                ltac:(settable_member)).
  pose proof (Hall "address" Company.address ltac:(settable_member)).
  pose proof (Hall "email" Company.email ltac:(settable_member)).
  pose proof (Hall "phone_number" Company.phone_number
                ltac:(settable_member)).
  pose proof (Hall "website" Company.website ltac:(settable_member)).
  pose proof (Hall "is_active" Company.is_active ltac:(settable_member)).
  pose proof (Hall "registration_number" Company.registration_number
                ltac:(settable_member)).
  pose proof (Hall "tax_id" Company.tax_id ltac:(settable_member)).
  pose proof (Hall "country" Company.country ltac:(settable_member)).
  pose proof (Hall "city" Company.city ltac:(settable_member)).
  pose proof (Hall "postal_code" Company.postal_code ltac:(settable_member)).
  pose proof (Hall "employees_count" Company.employees_count
                ltac:(settable_member)).
  clear Hall. destruct c1, c2. cbn in *. by subst.
Qed.

(** A commit that succeeds on well-typed values stores them as they are. *)
Lemma stored_well_typed (e : Env) (c row : Company.t) :
  (forall k proj, (k, proj) ∈ settable_fields ->
     well_typed k (proj c) = true) ->
  Company.stored e c = inr row -> row = c.
Proof.
  intros Hty (Hid & Hc & Hu & Hcols)%stored_inr.
  apply Company_ext; [done..|]. intros k proj Hin.
  eapply column_bind_well_typed; [by apply Hty | by apply Hcols].
Qed.

(** It succeeds when the [employees_count] fits the column. *)
Lemma stored_fits (e : Env) (c : Company.t) :
  (forall k proj, (k, proj) ∈ settable_fields ->
     well_typed k (proj c) = true) ->
  fits (Company.employees_count c) = true ->
  Company.stored e c = inr c.
Proof.
  intros Hty Hfits.
  destruct (stored_is_inr e c) as [row Hrow].
  - intros k proj Hin. exists (proj c).
    destruct (decide (k = "employees_count")) as [->|Hne].
    + apply settable_employees_count in Hin as Hp. subst proj.
      apply column_bind_fits; [by apply Hty | done].
    + apply column_bind_fits; [by apply Hty|].
      specialize (Hty k proj Hin). unfold well_typed in Hty.
      rewrite (bool_decide_eq_false_2 (k = "employees_count")) in Hty by done.
      unfold fits. case_bool_decide; by destruct (proj c).
  - by rewrite Hrow, (stored_well_typed e c row Hty Hrow).
Qed.

(** And fails, with [TooLarge], when it does not. *)
Lemma stored_too_large (e : Env) (c : Company.t) (z : Z) :
  (forall k proj, (k, proj) ∈ settable_fields ->
     well_typed k (proj c) = true) ->
  Company.employees_count c = PInt z -> Company.int64 z = false ->
  Company.stored e c = inl (TooLarge z).
Proof.
  intros Hty Hz Hbig.
  destruct (Company.stored e c) as [f|row] eqn:Es.
  - apply stored_inl in Es as (k & proj & Hin & Hk).
    apply column_bind_well_typed_inl in Hk as (-> & z' & Hv & -> & _);
      [|by apply Hty].
    apply settable_employees_count in Hin as ->. congruence.
  - apply stored_inr in Es as (_ & _ & _ & Hcols).
    specialize (Hcols "employees_count" Company.employees_count
                  ltac:(settable_member)).
    rewrite Hz, column_bind_employees_count in Hcols. cbn in Hcols.
    by rewrite Hbig in Hcols.
Qed.

(** ** What [load] returns *)

Lemma load_field_Value_inv tbl partial f d v :
  CompanySchema.load_field tbl partial f d = CompanySchema.Value v ->
  exists raw, d !! Some (CompanySchema.field_name f) = Some raw /\
    (raw = PNone /\ v = PNone \/
     CompanySchema.deserialize_value (CompanySchema.field_type f) raw
     = CompanySchema.Value v).
Proof.
  unfold CompanySchema.load_field, CompanySchema.deserialize.
  destruct (d !! Some (CompanySchema.field_name f)) as [raw|];
    [|by destruct (_ && _)].
  intros H. exists raw. split; [done|].
  destruct raw as [|b|z|s|].
  { left. split; [done|]. destruct (CompanySchema.allow_none f); [|done].
    destruct (CompanySchema.validator f) as [check|]; [|by injection H].
    destruct (check tbl PNone); [by injection H | done]. }
  all: right;
    destruct (CompanySchema.deserialize_value _ _) as [|msgs|v0]; try done;
    destruct (CompanySchema.validator f) as [check|];
    [ destruct (check tbl v0); [by injection H as -> | done]
    | by injection H as -> ].
Qed.

(** The values [load] returns have the type of their column, and an
    [employees_count] is the integer supplied, or the one [int()] reads
    from the string supplied. *)
Lemma loaded_attr_well_typed tbl partial d k :
  k <> "is_active" ->
  well_typed k (CompanySchema.attr k (CompanySchema.loaded_data tbl partial d))
  = true.
Proof.
  intros Hk. unfold CompanySchema.attr, kwarg, well_typed.
  rewrite (bool_decide_eq_false_2 (k = "is_active")) by done.
  destruct (CompanySchema.loaded_data tbl partial d !! k) as [v|] eqn:E;
    [|by case_bool_decide].
  cbn [default].
  apply loaded_data_Some in E as (f & Hin & -> & Hv).
  apply load_field_Value_inv in Hv as (raw & _ & [[_ ->]|Hv]);
    [by case_bool_decide|].
  unfold CompanySchema.load_fields in Hin.
  each_member Hin; subst f;
    cbn [CompanySchema.field_name CompanySchema.field_type] in *;
    try done;
    first [ rewrite (bool_decide_eq_false_2 (_ = "employees_count")) by done
          | rewrite (bool_decide_eq_true_2 (_ = "employees_count")) by done ];
    destruct raw; cbn [CompanySchema.deserialize_value] in Hv;
    try discriminate Hv;
    repeat match type of Hv with
           | context [if ?b then _ else _] => destruct b
           | context [match ?x with Some _ => _ | None => _ end] => destruct x
           end;
    try discriminate Hv; by injection Hv as <-.
Qed.



Lemma fresh_ids_created e from n tbl c :
  fresh_ids e from (S n) tbl -> Company.id c = uuid4 e from ->
  fresh_ids e (S from) n (tbl ++ [c]).
Proof.
  intros [H1 H2] Hid. split.
  - intros k Hk. rewrite fmap_app, elem_of_app. intros [Hin|Hin].
    + by apply (H1 k); [lia|].
    + apply list_elem_of_singleton in Hin. rewrite Hid in Hin.
      by apply (H2 from k); [lia|lia|].
  - intros j k Hj Hk. apply H2; lia.
Qed.

(** ** What the importer creates *)

Lemma import_kwargs_Some validated k v :
  (k, v) ∈ import_arguments validated -> import_kwargs validated !! k = Some v.
Proof.
  intros Hin. unfold import_kwargs. apply elem_of_list_to_map; [|exact Hin].
  cbn [fmap list_fmap fst]. nodup_keys.
Qed.

Lemma import_kwargs_None validated k :
  k ∉ (import_arguments validated).*1 -> import_kwargs validated !! k = None.
Proof. intros Hin. unfold import_kwargs. by apply not_elem_of_list_to_map_1. Qed.

Lemma import_kwargs_lookup validated k :
  k ∈ (import_arguments validated).*1 ->
  import_kwargs validated !! k = Some (CompanySchema.attr k validated).
Proof.
  intros Hin. cbn [import_arguments fmap list_fmap fst] in Hin.
  each_member Hin; subst k; apply import_kwargs_Some;
    unfold import_arguments;
    repeat first [apply list_elem_of_here | apply list_elem_of_further].
Qed.

Lemma import_kwargs_is_active validated :
  import_kwargs validated !! "is_active" = None.
Proof.
  apply import_kwargs_None. cbn [import_arguments fmap list_fmap fst].
  apply (bool_decide_unpack _). vm_compute. reflexivity.
Qed.

(** The attributes of the instance an importer builds. *)
Lemma import_instance_settable e k validated k' proj :
  (k', proj) ∈ settable_fields ->
  proj (Company.with_default_is_active
          (Company.new e k (CompanySchema.attr "name" validated)
             (import_kwargs validated)))
  = if bool_decide (k' = "organization_id") then PNone
    else if bool_decide (k' = "is_active") then PBool true
    else CompanySchema.attr k' validated.
Proof.
  intros Hin. unfold settable_fields in Hin.
  each_member Hin; injection Hin as -> ->; reflexivity.
Qed.

Lemma import_instance_default e k name validated :
  Company.with_default_is_active
    (Company.new e k name (import_kwargs validated))
  = Company.new e k name (import_kwargs validated).
Proof. reflexivity. Qed.


Lemma import_instance_well_typed e k tbl partial d k' proj :
  (k', proj) ∈ settable_fields ->
  well_typed k'
    (proj (Company.with_default_is_active
             (Company.new e k
                (CompanySchema.attr "name"
                   (CompanySchema.loaded_data tbl partial d))
                (import_kwargs (CompanySchema.loaded_data tbl partial d)))))
  = true.
Proof.
  intros Hin. rewrite (import_instance_settable _ _ _ k') by done.
  case_bool_decide as Ho.
  { subst k'. reflexivity. }
  case_bool_decide as Ha.
  { subst k'. reflexivity. }
  by apply loaded_attr_well_typed.
Qed.


(** A row that validates and whose employees count fits the column is
    inserted as the instance the importer builds. *)
Lemma create_imported_fits e k tbl d validated :
  CompanySchema.load tbl false (Obj d) = inr validated ->
  fits (CompanySchema.attr "employees_count" validated) = true ->
  Company.get_by_id (uuid4 e k) tbl = None ->
  Company.create e k (CompanySchema.attr "name" validated)
    (import_kwargs validated) tbl
  = inr (Company.new e k (CompanySchema.attr "name" validated)
           (import_kwargs validated),
         tbl ++ [Company.new e k (CompanySchema.attr "name" validated)
                   (import_kwargs validated)]).
Proof.
  intros Hload Hs Hfresh.
  destruct (load_inr_attr_name _ _ _ Hload) as (s & _ & Hn & _).
  destruct (load_inr _ _ _ _ Hload) as (d' & [= <-] & -> & _).
  rewrite Hn. apply create_inr; [|done]. rewrite <- Hn.
  rewrite <- (import_instance_default e k) at 2.
  apply stored_fits.
  - intros k' proj Hin. by apply import_instance_well_typed.
  - by rewrite (import_instance_settable _ _ _ "employees_count")
      by settable_member.
Qed.



(** ** The import loop *)


Lemma import_loop_valid_fits e idx d items p validated :
  CompanySchema.load (rows p) false (Obj d) = inr validated ->
  fits (CompanySchema.attr "employees_count" validated) = true ->
  Company.get_by_id (uuid4 e (count p)) (rows p) = None ->
  import_loop e idx (Obj d :: items) p
  = import_loop e (S idx) items
      (mkProgress (S (count p)) (errors p)
         (rows p ++ [Company.new e (count p)
                       (CompanySchema.attr "name" validated)
                       (import_kwargs validated)])).
Proof.
  intros Hload Hs Hfresh. cbn [import_loop]. rewrite Hload.
  by rewrite (create_imported_fits e (count p) (rows p) d validated).
Qed.

Lemma import_loop_invalid e idx item items p messages :
  CompanySchema.load (rows p) false item = inl messages ->
  import_loop e idx (item :: items) p
  = import_loop e (S idx) items
      (mkProgress (count p) (errors p ++ [(idx, messages)]) (rows p)).
Proof. intros Hload. cbn [import_loop]. by rewrite Hload. Qed.

Lemma fresh_ids_head e from n tbl :
  fresh_ids e from (S n) tbl -> Company.get_by_id (uuid4 e from) tbl = None.
Proof. intros [H1 _]. apply get_by_id_None, H1. lia. Qed.








(** ** Violations are reported *)













(** ** The length check *)






(** ** The CSV text *)

Lemma process_line_feed r line :
  csv.process_line r line
  = match feed r line with
    | Some r' => csv.parse_process_char r' None
    | None => None
    end.
Proof.
  revert r. induction line as [|c line IH]; intros r; cbn; [done|].
  destruct (csv.parse_process_char r (Some c)); [apply IH | done].
Qed.

Lemma feed_app r l1 l2 :
  feed r (l1 ++ l2)
  = match feed r l1 with Some r' => feed r' l2 | None => None end.
Proof.
  revert r. induction l1 as [|c l1 IH]; intros r; cbn; [done|].
  destruct (csv.parse_process_char r (Some c)); [apply IH | done].
Qed.

(** An unquoted field: its characters are accumulated one by one. *)
Lemma feed_in_field (s : list ascii) : forall fs cur,
  csv.needs_quoting s = false ->
  feed (csv.mkReader csv.IN_FIELD fs cur) s
  = Some (csv.mkReader csv.IN_FIELD fs (rev s ++ cur)).
Proof.
  induction s as [|c s IH]; intros fs cur Hq; [done|].
  cbn [csv.needs_quoting existsb] in Hq.
  apply orb_false_elim in Hq as [Hc Hq].
  unfold csv.is_special in Hc.
  repeat (apply orb_false_elim in Hc as [Hc ?]).
  cbn [feed]. unfold csv.parse_process_char. cbn [csv.state].
  unfold csv.is_newline. rewrite H, H0, Hc. cbn [orb].
  unfold csv.parse_add_char. cbn [csv.fields csv.field].
  rewrite IH by done. cbn [rev]. by rewrite <- app_assoc.
Qed.

(** Inside the quotes: a doubled quote gives one quote, anything else is
    taken as it is. *)
Lemma feed_in_quoted_field (s : list ascii) : forall fs cur,
  feed (csv.mkReader csv.IN_QUOTED_FIELD fs cur) (csv.double_quotes s)
  = Some (csv.mkReader csv.IN_QUOTED_FIELD fs (rev s ++ cur)).
Proof.
  induction s as [|c s IH]; intros fs cur; [done|].
  unfold csv.double_quotes. cbn [flat_map].
  fold (csv.double_quotes s).
  destruct (bool_decide (c = csv.quotechar)) eqn:E.
  - apply bool_decide_eq_true_1 in E as ->.
    cbn [app feed]. unfold csv.parse_process_char at 1. cbn [csv.state].
    rewrite bool_decide_eq_true_2 by done.
    unfold csv.set_state. cbn [csv.fields csv.field].
    unfold csv.parse_process_char at 1. cbn [csv.state].
    rewrite bool_decide_eq_true_2 by done.
    unfold csv.parse_add_char. cbn [csv.fields csv.field].
    rewrite IH. cbn [rev]. by rewrite <- app_assoc.
  - cbn [app feed]. unfold csv.parse_process_char at 1. cbn [csv.state].
    rewrite E. unfold csv.parse_add_char. cbn [csv.fields csv.field].
    rewrite IH. cbn [rev]. by rewrite <- app_assoc.
Qed.

Lemma feed_write_field (s : list ascii) (fs : list string) :
  exists r, feed (csv.mkReader csv.START_FIELD fs []) (csv.write_field s)
            = Some r /\ field_read s fs r.
Proof.
  unfold csv.write_field. destruct (csv.needs_quoting s) eqn:Hq.
  - cbn [feed]. unfold csv.parse_process_char at 1. cbn [csv.state].
    change (csv.is_newline csv.quotechar) with false. cbv iota.
    rewrite bool_decide_eq_true_2 by done.
    unfold csv.set_state. cbn [csv.fields csv.field].
    rewrite feed_app, feed_in_quoted_field. cbn [feed].
    unfold csv.parse_process_char. cbn [csv.state].
    rewrite bool_decide_eq_true_2 by done.
    eexists. split; [done|]. unfold field_read, csv.set_state.
    cbn [csv.fields csv.field csv.state]. rewrite app_nil_r. by auto 6.
  - destruct s as [|c s].
    + eexists. split; [done|]. unfold field_read.
      cbn [csv.fields csv.field csv.state rev]. by auto 6.
    + pose proof Hq as Hq'. cbn [csv.needs_quoting existsb] in Hq.
      apply orb_false_elim in Hq as [Hc Hq].
      unfold csv.is_special in Hc.
      repeat (apply orb_false_elim in Hc as [Hc ?]).
      cbn [feed]. unfold csv.parse_process_char. cbn [csv.state].
      unfold csv.is_newline. rewrite H, H0, H1, Hc. cbn [orb].
      unfold csv.parse_add_char. cbn [csv.fields csv.field].
      rewrite feed_in_field by done.
      eexists. split; [done|]. unfold field_read.
      cbn [csv.fields csv.field csv.state rev]. by auto 6.
Qed.

Lemma field_read_delimiter s fs r :
  field_read s fs r ->
  csv.parse_process_char r (Some csv.delimiter)
  = Some (csv.mkReader csv.START_FIELD (string_of_list_ascii s :: fs) []).
Proof.
  intros (Hfs & Hf & Hst). unfold csv.parse_process_char.
  change (csv.is_newline csv.delimiter) with false.
  change (bool_decide (csv.delimiter = csv.quotechar)) with false.
  rewrite bool_decide_eq_true_2 by done.
  unfold csv.parse_save_field. rewrite Hfs, Hf, rev_involutive.
  destruct Hst as [->|[->|[-> _]]]; done.
Qed.

Lemma field_read_eol s fs r :
  field_read s fs r ->
  csv.parse_process_char r None
  = Some (csv.mkReader csv.START_RECORD (string_of_list_ascii s :: fs) []).
Proof.
  intros (Hfs & Hf & Hst). unfold csv.parse_process_char.
  unfold csv.parse_save_field. rewrite Hfs, Hf, rev_involutive.
  destruct Hst as [->|[->|[-> _]]]; done.
Qed.

(** A written row read back, starting at a field. *)
Lemma process_line_fields (cells : list string) : forall fs,
  cells <> [] ->
  csv.process_line (csv.mkReader csv.START_FIELD fs [])
    (csv.join_fields (csv.write_field ∘ list_ascii_of_string <$> cells))
  = Some (csv.mkReader csv.START_RECORD (rev cells ++ fs) []).
Proof.
  induction cells as [|s cells IH]; intros fs Hne; [done|].
  destruct (feed_write_field (list_ascii_of_string s) fs) as (r & Hr & Hread).
  destruct cells as [|s' cells].
  - cbn [fmap list_fmap csv.join_fields compose].
    rewrite process_line_feed, Hr. erewrite field_read_eol by done.
    by rewrite string_of_list_ascii_of_string.
  - rewrite fmap_cons.
    change (csv.join_fields ((csv.write_field ∘ list_ascii_of_string) s
              :: ((csv.write_field ∘ list_ascii_of_string) <$> s' :: cells)))
      with (csv.write_field (list_ascii_of_string s)
            ++ csv.delimiter
               :: csv.join_fields
                    ((csv.write_field ∘ list_ascii_of_string) <$> s' :: cells)).
    rewrite process_line_feed, feed_app, Hr. cbn [feed].
    erewrite field_read_delimiter by done.
    rewrite <- process_line_feed, IH by done.
    rewrite string_of_list_ascii_of_string. cbn [rev].
    by rewrite <- !app_assoc.
Qed.

Lemma write_field_head (s : list ascii) c l :
  csv.write_field s = c :: l -> csv.is_newline c = false.
Proof.
  unfold csv.write_field. destruct (csv.needs_quoting s) eqn:Hq.
  - by intros [= <- _].
  - intros ->. cbn [csv.needs_quoting existsb] in Hq.
    apply orb_false_elim in Hq as [Hc _]. unfold csv.is_special in Hc.
    repeat (apply orb_false_elim in Hc as [Hc ?]).
    unfold csv.is_newline. by rewrite H, H0.
Qed.

Lemma start_record_as_start_field fs c line :
  csv.is_newline c = false ->
  csv.process_line (csv.mkReader csv.START_RECORD fs []) (c :: line)
  = csv.process_line (csv.mkReader csv.START_FIELD fs []) (c :: line).
Proof.
  intros Hc. cbn [csv.process_line]. unfold csv.parse_process_char.
  cbn [csv.state]. by rewrite Hc.
Qed.

(** A written row of at least two cells, read back from the start of a
    record. *)
Lemma process_line_row (cells : list string) :
  (2 <= length cells)%nat ->
  csv.process_line csv.parse_reset
    (csv.join_fields (csv.write_field ∘ list_ascii_of_string <$> cells))
  = Some (csv.mkReader csv.START_RECORD (rev cells) []).
Proof.
  intros Hlen.
  destruct cells as [|s [|s' cells]]; cbn [length] in Hlen; [lia|lia|].
  pose proof (process_line_fields (s :: s' :: cells) [] ltac:(done)) as Hrow.
  rewrite app_nil_r in Hrow. rewrite <- Hrow.
  rewrite !fmap_cons.
  change (csv.join_fields ((csv.write_field ∘ list_ascii_of_string) s
            :: (csv.write_field ∘ list_ascii_of_string) s'
            :: ((csv.write_field ∘ list_ascii_of_string) <$> cells)))
    with (csv.write_field (list_ascii_of_string s)
          ++ csv.delimiter
             :: csv.join_fields
                  ((csv.write_field ∘ list_ascii_of_string) s'
                   :: ((csv.write_field ∘ list_ascii_of_string) <$> cells))).
  destruct (csv.write_field (list_ascii_of_string s)) as [|c l] eqn:E.
  - by apply start_record_as_start_field.
  - apply start_record_as_start_field. by eapply write_field_head.
Qed.

(** *** Lines *)

Lemma splitlines_from_line (line : list ascii) : forall cur rest,
  no_line_boundary line ->
  splitlines_from cur (line ++ csv.CR :: csv.LF :: rest)
  = (rev cur ++ line) :: splitlines_from [] rest.
Proof.
  induction line as [|c line IH]; intros cur rest Hline.
  - cbn [app splitlines_from]. rewrite !bool_decide_eq_true_2 by done.
    by rewrite app_nil_r.
  - apply Forall_cons in Hline as [Hc Hline]. cbn [app splitlines_from].
    rewrite Hc. rewrite bool_decide_eq_false_2.
    + rewrite IH by done. cbn [rev]. by rewrite <- app_assoc.
    + intros ->. done.
Qed.

Lemma splitlines_from_lines (lines : list (list ascii)) :
  Forall no_line_boundary lines ->
  splitlines_from [] (concat ((fun l => l ++ [csv.CR; csv.LF]) <$> lines))
  = lines.
Proof.
  induction 1 as [|line lines Hline _ IH]; [done|].
  rewrite fmap_cons. cbn [concat]. rewrite <- app_assoc. cbn [app].
  rewrite splitlines_from_line by done. by rewrite IH.
Qed.

Lemma write_field_no_line_boundary (s : list ascii) :
  no_line_boundary s -> no_line_boundary (csv.write_field s).
Proof.
  intros Hs. unfold csv.write_field. destruct (csv.needs_quoting s); [|done].
  apply Forall_cons. split; [done|]. apply Forall_app. split.
  - unfold csv.double_quotes. induction Hs as [|c s Hc Hs IH]; [constructor|].
    cbn [flat_map]. destruct (bool_decide _); repeat constructor; done.
  - by repeat constructor.
Qed.

Lemma join_fields_no_line_boundary (fields : list (list ascii)) :
  Forall no_line_boundary fields -> no_line_boundary (csv.join_fields fields).
Proof.
  induction 1 as [|f fields Hf Hfs IH]; [constructor|].
  destruct fields as [|f' fields]; [done|].
  change (csv.join_fields (f :: f' :: fields))
    with (f ++ csv.delimiter :: csv.join_fields (f' :: fields)).
  apply Forall_app. split; [done|]. apply Forall_cons. split; [done|]. done.
Qed.

Lemma plain_no_line_boundary s :
  plain s = true -> no_line_boundary (list_ascii_of_string s).
Proof.
  unfold plain. rewrite forallb_forall. intros H. apply Forall_forall.
  intros c Hc. apply list_elem_of_In in Hc. apply H in Hc.
  by destruct (is_line_boundary c).
Qed.

Lemma writerow_row_line (cells : list string) :
  (2 <= length cells)%nat ->
  csv.writerow cells = row_line cells ++ [csv.CR; csv.LF].
Proof.
  intros Hlen. unfold csv.writerow, row_line.
  destruct cells as [|s [|s' cells]]; cbn [length] in Hlen; [lia|lia|].
  by destruct s.
Qed.

Lemma row_line_no_line_boundary (cells : list string) :
  Forall (fun s => plain s = true) cells -> no_line_boundary (row_line cells).
Proof.
  intros Hcells. apply join_fields_no_line_boundary.
  apply Forall_fmap. eapply Forall_impl; [exact Hcells|].
  intros s Hs. cbn. by apply write_field_no_line_boundary,
    plain_no_line_boundary.
Qed.

(** The records the reader makes of the lines of written rows. *)
Lemma records_from_row_lines (rows : list (list string)) :
  Forall (fun cells => (2 <= length cells)%nat) rows ->
  csv.records_from csv.parse_reset (row_line <$> rows) = (rows, None).
Proof.
  induction 1 as [|cells rows Hlen _ IH]; [done|].
  rewrite fmap_cons. cbn [csv.records_from]. unfold row_line at 1.
  rewrite process_line_row by done. cbn [csv.state csv.fields].
  rewrite bool_decide_eq_true_2 by done. rewrite IH.
  by rewrite rev_involutive.
Qed.

Lemma filter_no_blank_row (rows : list (list string)) :
  Forall (fun cells => (2 <= length cells)%nat) rows ->
  filter (fun row => row <> []) rows = rows.
Proof.
  induction 1 as [|cells rows Hlen _ IH]; [done|].
  rewrite filter_cons. rewrite decide_True; [by rewrite IH|].
  intros ->. cbn in Hlen. lia.
Qed.

(** Written rows, split into lines and read back: the first one gives the
    field names, the others the dicts. *)
Theorem DictReader_written (fieldnames : list string)
    (rows : list (list string)) :
  (2 <= length fieldnames)%nat ->
  Forall (fun cells => (2 <= length cells)%nat) rows ->
  Forall (fun s => plain s = true) fieldnames ->
  Forall (Forall (fun s => plain s = true)) rows ->
  csv.DictReader
    (splitlines
       (string_of_list_ascii
          (csv.writerow fieldnames ++ concat (csv.writerow <$> rows))))
  = (csv.dict_of_row fieldnames <$> rows, None).
Proof.
  intros Hh Hrows Hph Hprows.
  unfold splitlines. rewrite list_ascii_of_string_of_list_ascii.
  assert (csv.writerow fieldnames ++ concat (csv.writerow <$> rows)
          = concat ((fun l => l ++ [csv.CR; csv.LF])
                    <$> (row_line <$> fieldnames :: rows))) as ->.
  { rewrite !fmap_cons. cbn [concat]. rewrite writerow_row_line by done.
    f_equal. f_equal. rewrite <- list_fmap_compose.
    apply Forall_fmap_ext_1. eapply Forall_impl; [exact Hrows|].
    intros cells Hc. cbn. by apply writerow_row_line. }
  rewrite splitlines_from_lines; last first.
  { apply Forall_fmap. constructor.
    - by apply row_line_no_line_boundary.
    - eapply Forall_impl; [exact Hprows|]. intros cells Hc. cbn.
      by apply row_line_no_line_boundary. }
  unfold csv.DictReader, csv.reader_records.
  rewrite records_from_row_lines by (by constructor).
  by rewrite filter_no_blank_row.
Qed.

(** ** Integers and their decimal text *)

Lemma string_of_uint_digits (d : Decimal.uint) :
  all_digits (list_ascii_of_string (NilEmpty.string_of_uint d)).
Proof. induction d; cbn; constructor; done. Qed.

Lemma digit_not_space c : is_digit c = true -> is_space c = false.
Proof.
  unfold is_digit, is_space. cbv zeta. intros H.
  apply andb_prop in H as [H1 H2]. apply Nat.leb_le in H1, H2.
  rewrite (proj2 (Nat.leb_gt (nat_of_ascii c) 13)) by lia.
  rewrite (proj2 (Nat.eqb_neq (nat_of_ascii c) 32)) by lia.
  rewrite (proj2 (Nat.eqb_neq (nat_of_ascii c) 133)) by lia.
  rewrite (proj2 (Nat.eqb_neq (nat_of_ascii c) 160)) by lia.
  by rewrite !andb_false_r.
Qed.

Lemma digit_not_underscore c : is_digit c = true -> Ascii.eqb c "_" = false.
Proof. intros H. apply Ascii.eqb_neq. intros ->. done. Qed.

Lemma digit_not_line_boundary c :
  is_digit c = true -> is_line_boundary c = false.
Proof.
  unfold is_digit, is_line_boundary. cbv zeta. intros H.
  apply andb_prop in H as [H1 H2]. apply Nat.leb_le in H1, H2.
  rewrite (proj2 (Nat.leb_gt (nat_of_ascii c) 13)) by lia.
  rewrite (proj2 (Nat.leb_gt (nat_of_ascii c) 30)) by lia.
  rewrite (proj2 (Nat.eqb_neq (nat_of_ascii c) 133)) by lia.
  by rewrite !andb_false_r.
Qed.

Lemma lstrip_digits l : all_digits l -> lstrip l = l.
Proof.
  intros [|c l' Hc _]; [done|]. cbn. by rewrite digit_not_space.
Qed.

Lemma strip_digits l : all_digits l -> strip l = l.
Proof.
  intros H. unfold strip. rewrite (lstrip_digits l H).
  rewrite lstrip_digits; [apply rev_involutive|].
  unfold all_digits. by apply Forall_rev.
Qed.

Lemma drop_underscores_digits l prev :
  all_digits l -> l <> [] \/ prev = true ->
  drop_underscores prev l = Some l.
Proof.
  intros H. revert prev. induction H as [|c l Hc _ IH]; intros prev Hne.
  - destruct Hne as [Hne | ->]; done.
  - cbn. rewrite digit_not_underscore by done.
    rewrite IH by (by right). done.
Qed.

Lemma py_int_of_string_digits (d : Decimal.uint) :
  d <> Decimal.Nil ->
  py_int_of_string (NilEmpty.string_of_uint d) = Some (Z.of_N (N.of_uint d)).
Proof.
  intros Hd. unfold py_int_of_string.
  pose proof (string_of_uint_digits d) as Hall.
  rewrite strip_digits by done.
  destruct (list_ascii_of_string (NilEmpty.string_of_uint d))
    as [|c l] eqn:E.
  { destruct d; done. }
  apply Forall_cons in Hall as Hc. destruct Hc as [Hc _].
  assert (Ascii.eqb c "-" = false) as ->.
  { apply Ascii.eqb_neq. intros ->. done. }
  assert (Ascii.eqb c "+" = false) as ->.
  { apply Ascii.eqb_neq. intros ->. done. }
  rewrite Hc. rewrite drop_underscores_digits by (by auto).
  cbn [mbind option_bind]. rewrite <- E, string_of_list_ascii_of_string.
  by rewrite NilEmpty.usu.
Qed.

(** [int(str(z))] is [z]. *)
Lemma py_int_of_string_str (z : Z) :
  0 <= z -> py_int_of_string (py_str_of_int z) = Some z.
Proof.
  intros Hz. unfold py_str_of_int.
  destruct z as [|p|p]; [done| |lia].
  cbn [Z.to_int NilZero.string_of_int].
  assert (Pos.to_uint p <> Decimal.Nil) as Hnil.
  { intros E. pose proof (DecimalPos.Unsigned.of_to p) as H.
    rewrite E in H. done. }
  assert (NilZero.string_of_uint (Pos.to_uint p)
          = NilEmpty.string_of_uint (Pos.to_uint p)) as ->.
  { unfold NilZero.string_of_uint. by destruct (Pos.to_uint p). }
  rewrite py_int_of_string_digits by done. f_equal.
  change (Pos.to_uint p) with (N.to_uint (N.pos p)).
  by rewrite DecimalN.Unsigned.of_to.
Qed.

(** ** Cells without line boundary *)

Lemma no_line_boundary_plain (l : list ascii) :
  no_line_boundary l -> plain (string_of_list_ascii l) = true.
Proof.
  intros Hl. unfold plain. rewrite list_ascii_of_string_of_list_ascii.
  apply forallb_forall. intros c Hc. apply list_elem_of_In in Hc.
  unfold no_line_boundary in Hl. rewrite Forall_forall in Hl.
  by rewrite (Hl c Hc).
Qed.

Lemma all_digits_no_line_boundary (l : list ascii) :
  all_digits l -> no_line_boundary l.
Proof.
  intros Hl. eapply Forall_impl; [exact Hl|].
  intros c Hc. by apply digit_not_line_boundary.
Qed.

Lemma string_of_uint_plain (d : Decimal.uint) :
  plain (NilEmpty.string_of_uint d) = true.
Proof.
  rewrite <- (string_of_list_ascii_of_string (NilEmpty.string_of_uint d)).
  apply no_line_boundary_plain, all_digits_no_line_boundary,
    string_of_uint_digits.
Qed.

Lemma NilZero_string_of_uint_plain (d : Decimal.uint) :
  plain (NilZero.string_of_uint d) = true.
Proof.
  unfold NilZero.string_of_uint.
  destruct d; try apply string_of_uint_plain. reflexivity.
Qed.

Lemma py_str_of_int_plain (z : Z) : plain (py_str_of_int z) = true.
Proof.
  unfold py_str_of_int. destruct (Z.to_int z) as [d|d];
    cbn [NilZero.string_of_int].
  - apply NilZero_string_of_uint_plain.
  - pose proof (NilZero_string_of_uint_plain d) as Hd.
    unfold plain in *. cbn [list_ascii_of_string forallb]. by rewrite Hd.
Qed.

Lemma digit_is_digit (n : N) : is_digit (digit n) = true.
Proof.
  unfold digit. pose proof (N.mod_upper_bound n 10 ltac:(done)) as Hm.
  set (m := (n mod 10)%N) in *.
  assert (m = 0 \/ m = 1 \/ m = 2 \/ m = 3 \/ m = 4 \/ m = 5 \/ m = 6
          \/ m = 7 \/ m = 8 \/ m = 9)%N as Hcases by lia.
  repeat (destruct Hcases as [-> | Hcases]; [reflexivity|]).
  by rewrite Hcases.
Qed.

Lemma isoformat_plain (t : datetime) : plain (isoformat t) = true.
Proof.
  unfold isoformat. apply no_line_boundary_plain.
  unfold pad2, pad4, pad6. cbn [app].
  repeat (apply Forall_cons; split;
          [first [apply digit_not_line_boundary, digit_is_digit
                 | reflexivity]|]).
  destruct (microsecond t =? 0)%N; [constructor|].
  repeat (apply Forall_cons; split;
          [first [apply digit_not_line_boundary, digit_is_digit
                 | reflexivity]|]).
  constructor.
Qed.

Lemma cell_text_plain (v : pyval) :
  printable v = true -> plain (cell_text v) = true.
Proof.
  destruct v as [|[]|z|s|]; cbn [printable cell_text]; try done.
  - intros _. apply py_str_of_int_plain.
  - by intros [_ ?]%andb_prop.
Qed.

Lemma exportable_column (c : Company.t) f proj :
  exportable c = true -> (f, proj) ∈ columns ->
  accepts f (proj c) = true /\ printable (proj c) = true.
Proof.
  unfold exportable. intros [[_ Hall]%andb_prop _]%andb_prop Hin.
  rewrite forallb_forall in Hall. apply list_elem_of_In in Hin.
  specialize (Hall _ Hin). cbn in Hall. by apply andb_prop in Hall.
Qed.

(** The cells of a row, in the order of the header: the identifier, nine
    attributes, the two time stamps, seven attributes. *)
Lemma data_row_columns (c : Company.t) :
  ExportCSVResource.data_row c
  = Company.id c
    :: take 9 ((fun fp => cell_text (fp.2 c)) <$> columns)
    ++ [from_option isoformat "" (Company.created_at c);
        from_option isoformat "" (Company.updated_at c)]
    ++ drop 9 ((fun fp => cell_text (fp.2 c)) <$> columns).
Proof. reflexivity. Qed.

Lemma data_row_plain (c : Company.t) :
  exportable c = true ->
  Forall (fun s => plain s = true) (ExportCSVResource.data_row c).
Proof.
  intros Hc. rewrite data_row_columns.
  assert (Forall (fun s => plain s = true)
            ((fun fp => cell_text (fp.2 c)) <$> columns)) as Hcells.
  { apply Forall_fmap, Forall_forall. intros [f proj] Hin. cbn.
    apply cell_text_plain. by eapply exportable_column. }
  apply Forall_cons. split.
  { unfold exportable in Hc. by apply andb_prop in Hc as [[? _]%andb_prop _]. }
  apply Forall_app. split; [by apply Forall_take|].
  apply Forall_app. split; [|by apply Forall_drop].
  repeat constructor.
  - destruct (Company.created_at c); [apply isoformat_plain | done].
  - destruct (Company.updated_at c); [apply isoformat_plain | done].
Qed.

(** ** The dict of a row *)

Lemma dict_foldl_notin (kvs : list (string * string)) (acc : pydict)
    (k : pykey) :
  k ∉ Some <$> kvs.*1 ->
  foldl (fun (d : pydict) '(k, v) => <[Some k := PStr v]> d) acc kvs !! k
  = acc !! k.
Proof.
  revert acc. induction kvs as [|[k' v'] kvs IH]; intros acc Hk; [done|].
  cbn [foldl]. rewrite !fmap_cons in Hk. cbn [fst] in Hk.
  apply not_elem_of_cons in Hk as [Hne Hk].
  rewrite IH by done. by rewrite lookup_insert_ne.
Qed.

Lemma dict_foldl_in (kvs : list (string * string)) (acc : pydict)
    (k v : string) :
  NoDup kvs.*1 -> (k, v) ∈ kvs ->
  foldl (fun (d : pydict) '(k, v) => <[Some k := PStr v]> d) acc kvs
    !! Some k = Some (PStr v).
Proof.
  revert acc. induction kvs as [|[k' v'] kvs IH]; intros acc Hnd Hin.
  { by apply elem_of_nil in Hin. }
  rewrite fmap_cons in Hnd. cbn [fst] in Hnd.
  apply NoDup_cons in Hnd as [Hk' Hnd]. cbn [foldl].
  apply elem_of_cons in Hin as [[= -> ->]|Hin].
  - rewrite dict_foldl_notin; [apply lookup_insert_eq|].
    intros Hin. apply list_elem_of_fmap in Hin as (k0 & [= <-] & Hin). done.
  - by apply IH.
Qed.

(** A row with as many cells as there are field names. *)
Lemma dict_of_row_lookup (fieldnames row : list string) (k v : string) :
  length fieldnames = length row -> NoDup fieldnames ->
  (k, v) ∈ zip fieldnames row ->
  csv.dict_of_row fieldnames row !! Some k = Some (PStr v).
Proof.
  intros Hlen Hnd Hin. unfold csv.dict_of_row.
  rewrite (proj2 (Nat.ltb_ge _ _)) by lia.
  rewrite <- Hlen, drop_all. cbn [foldl].
  apply dict_foldl_in; [|done]. rewrite fst_zip by lia. done.
Qed.

Lemma dict_of_row_keys (fieldnames row : list string) (k : pykey) :
  length fieldnames = length row ->
  is_Some (csv.dict_of_row fieldnames row !! k) ->
  exists s, k = Some s /\ s ∈ fieldnames.
Proof.
  intros Hlen. unfold csv.dict_of_row.
  rewrite (proj2 (Nat.ltb_ge _ _)) by lia.
  rewrite <- Hlen, drop_all. cbn [foldl]. intros Hsome.
  destruct (decide (k ∈ Some <$> (zip fieldnames row).*1)) as [Hin|Hnin].
  - apply list_elem_of_fmap in Hin as (s & -> & Hin).
    rewrite fst_zip in Hin by lia. eauto.
  - rewrite dict_foldl_notin in Hsome by done.
    rewrite lookup_empty in Hsome. by destruct Hsome.
Qed.

Lemma row_data_lookup (row : pydict) (k : string) :
  k ∉ ["id"; "created_at"; "updated_at"] ->
  ImportCSVResource.row_data row !! Some k
  = (fun v => if bool_decide (v = PStr "") then PNone else v) <$> row !! Some k.
Proof.
  intros Hk. unfold ImportCSVResource.row_data.
  rewrite !lookup_delete_ne, lookup_fmap; [done|..];
    intros [= <-]; apply Hk;
    repeat first [apply list_elem_of_here | apply list_elem_of_further].
Qed.

Lemma row_data_keys (row : pydict) (k : pykey) :
  is_Some (ImportCSVResource.row_data row !! k) ->
  is_Some (row !! k) /\
  k ∉ [Some "id"; Some "created_at"; Some "updated_at"].
Proof.
  unfold ImportCSVResource.row_data. intros Hsome.
  destruct (decide (k = Some "updated_at")) as [->|H1].
  { rewrite lookup_delete_eq in Hsome. by destruct Hsome. }
  rewrite lookup_delete_ne in Hsome by done.
  destruct (decide (k = Some "created_at")) as [->|H2].
  { rewrite lookup_delete_eq in Hsome. by destruct Hsome. }
  rewrite lookup_delete_ne in Hsome by done.
  destruct (decide (k = Some "id")) as [->|H3].
  { rewrite lookup_delete_eq in Hsome. by destruct Hsome. }
  rewrite lookup_delete_ne in Hsome by done.
  rewrite lookup_fmap in Hsome. apply fmap_is_Some in Hsome.
  split; [done|].
  intros Hin. repeat (apply elem_of_cons in Hin as [Hin|Hin]; [done|]).
  by apply elem_of_nil in Hin.
Qed.

Lemma header_NoDup : NoDup ExportCSVResource.header.
Proof. apply (bool_decide_unpack _). vm_compute. reflexivity. Qed.

(** The dict the importer validates for the exported row of [c]. *)
Lemma exported_row_lookup (c : Company.t) f proj :
  (f, proj) ∈ columns ->
  ImportCSVResource.row_data
    (csv.dict_of_row ExportCSVResource.header (ExportCSVResource.data_row c))
    !! Some (CompanySchema.field_name f)
  = Some (cell_value (cell_text (proj c))).
Proof.
  intros Hin. unfold columns, CompanySchema.load_fields, settable_fields in Hin.
  cbn [zip_with fmap list_fmap snd] in Hin.
  each_member Hin; injection Hin as -> ->; cbn [CompanySchema.field_name];
    (rewrite row_data_lookup;
     [ erewrite dict_of_row_lookup;
       [ reflexivity | reflexivity | apply header_NoDup
       | unfold ExportCSVResource.header, ExportCSVResource.data_row;
         cbn [zip_with];
         repeat first [apply list_elem_of_here | apply list_elem_of_further] ]
     | intros Hp;
       repeat (apply elem_of_cons in Hp as [Hp|Hp]; [discriminate Hp|]);
       by apply elem_of_nil in Hp ]).
Qed.

Lemma exported_row_keys (c : Company.t) (k : pykey) :
  is_Some (ImportCSVResource.row_data
             (csv.dict_of_row ExportCSVResource.header
                (ExportCSVResource.data_row c)) !! k) ->
  k ∈ (Some ∘ CompanySchema.field_name) <$> CompanySchema.load_fields.
Proof.
  intros [Hsome Hpop]%row_data_keys.
  apply dict_of_row_keys in Hsome as (s & -> & Hs); [|reflexivity].
  unfold ExportCSVResource.header in Hs.
  each_member Hs; subst s;
    first [ apply (bool_decide_unpack _); vm_compute; reflexivity
          | exfalso; apply Hpop;
            repeat first [apply list_elem_of_here
                         | apply list_elem_of_further] ].
Qed.

(** ** Reading a cell back *)

Lemma py_str_of_int_nonempty (z : Z) : py_str_of_int z <> "".
Proof.
  unfold py_str_of_int. destruct (Z.to_int z) as [d|d];
    cbn [NilZero.string_of_int]; [|done].
  unfold NilZero.string_of_uint. by destruct d.
Qed.

Lemma cell_value_nonempty (s : string) : s <> "" -> cell_value s = PStr s.
Proof.
  intros Hs. unfold cell_value. rewrite bool_decide_eq_false_2; [done|].
  by intros [= ->].
Qed.

(** The value the importer hands to the schema for the cell of [v]. *)
Lemma cell_value_text (v : pyval) :
  printable v = true ->
  cell_value (cell_text v)
  = match v with
    | PNone | POther => PNone
    | PBool true => PStr "True"
    | PBool false => PStr "False"
    | PInt z => PStr (py_str_of_int z)
    | PStr s => PStr s
    end.
Proof.
  destruct v as [|[]|z|s|]; cbn [cell_text printable]; try done.
  - intros _. apply cell_value_nonempty, py_str_of_int_nonempty.
  - intros [Hs _]%andb_prop. apply cell_value_nonempty.
    apply negb_true_iff, bool_decide_eq_false_1 in Hs. done.
Qed.

(** A stored value the schema accepts is accepted again when it comes back
    from its cell, whatever the table, and comes back the same. *)
Lemma load_field_read_back (tbl : Company.table) (f : CompanySchema.field)
    (v : pyval) (d : pydict) :
  f ∈ CompanySchema.load_fields -> CompanySchema.field_name f <> "name" ->
  accepts f v = true -> printable v = true ->
  d !! Some (CompanySchema.field_name f) = Some (cell_value (cell_text v)) ->
  CompanySchema.load_field tbl false f d = CompanySchema.Value v.
Proof.
  intros Hin Hname Hacc Hpr Hd.
  unfold accepts in Hacc. apply bool_decide_eq_true_1 in Hacc.
  unfold CompanySchema.load_field in *.
  rewrite lookup_singleton_eq in Hacc. rewrite Hd, (cell_value_text v Hpr).
  clear Hd. unfold CompanySchema.load_fields in Hin.
  each_member Hin; subst f; try done;
    unfold CompanySchema.on_str in *;
    destruct v as [|[]|z|s|]; try (solve [read_back_field Hacc]);
    cbn -[Nat.ltb String.length Z.ltb py_int_of_string py_str_of_int
          bool_decide] in Hacc |- *.
  - (* a parent: no row of the empty table has that identifier *)
    destruct (100 <? String.length s)%nat; [discriminate Hacc|].
    destruct s; [discriminate Hpr | discriminate Hacc].
  - (* a number as [is_active] is not handed back as it is *)
    repeat (destruct (bool_decide _) in Hacc; try discriminate Hacc).
  - (* the employees count: [int(str(z))] *)
    unfold CompanySchema.validate_employees_count in *.
    cbn [as_int] in *. destruct (z <? 0) eqn:Ez; [discriminate Hacc|].
    apply Z.ltb_ge in Ez. rewrite py_int_of_string_str by done.
    cbn [as_int]. by rewrite (proj2 (Z.ltb_ge z 0) Ez).
Qed.

(** ** Loading an exported row *)

Lemma columns_load_fields f proj :
  (f, proj) ∈ columns -> f ∈ CompanySchema.load_fields.
Proof. unfold columns. apply elem_of_zip_l. Qed.

Lemma load_fields_columns f :
  f ∈ CompanySchema.load_fields -> exists proj, (f, proj) ∈ columns.
Proof.
  intros Hin. unfold CompanySchema.load_fields in Hin.
  each_member Hin; subst f; eexists; column_member.
Qed.

Lemma settable_fields_columns k proj :
  (k, proj) ∈ settable_fields ->
  exists f, (f, proj) ∈ columns /\ CompanySchema.field_name f = k.
Proof.
  intros Hin. unfold settable_fields in Hin.
  each_member Hin; injection Hin as -> ->;
    (eexists; split; [column_member | reflexivity]).
Qed.

Lemma name_column : (name_field, Company.name) ∈ columns.
Proof. column_member. Qed.

Lemma accepts_name (v : pyval) :
  accepts name_field v = true ->
  exists s, v = PStr s /\ s <> "" /\ (String.length s <= 100)%nat.
Proof.
  unfold accepts. intros Hacc%bool_decide_eq_true_1.
  unfold CompanySchema.load_field in Hacc.
  rewrite lookup_singleton_eq in Hacc.
  destruct v as [|b|z|s|]; try discriminate Hacc.
  cbn -[Nat.ltb String.length] in Hacc.
  destruct (100 <? String.length s)%nat eqn:El; [discriminate Hacc|].
  apply Nat.ltb_ge in El. exists s. split; [done|]. split; [|done].
  by intros ->.
Qed.

Lemma accepts_parent_id (v : pyval) :
  accepts (CompanySchema.mkField "parent_id" (CompanySchema.ColString 100)
             false true (CompanySchema.on_str CompanySchema.validate_parent_id))
    v = true ->
  printable v = true -> v = PNone.
Proof.
  unfold accepts. intros Hacc%bool_decide_eq_true_1 Hpr.
  unfold CompanySchema.load_field in Hacc.
  rewrite lookup_singleton_eq in Hacc.
  destruct v as [|b|z|s|]; try discriminate Hacc; [done|].
  cbn -[Nat.ltb String.length] in Hacc.
  destruct (100 <? String.length s)%nat; [discriminate Hacc|].
  destruct s; [discriminate Hpr | discriminate Hacc].
Qed.

Lemma exportable_parent_id (c : Company.t) :
  exportable c = true -> Company.parent_id c = PNone.
Proof.
  intros Hc.
  destruct (exportable_column c _ Company.parent_id Hc
              ltac:(column_member)) as [Hacc Hpr].
  by apply accepts_parent_id.
Qed.

Lemma exportable_name (c : Company.t) :
  exportable c = true ->
  exists s, Company.name c = PStr s /\ s <> "" /\ (String.length s <= 100)%nat.
Proof.
  intros Hc.
  destruct (exportable_column c _ _ Hc name_column) as [Hacc _].
  by apply accepts_name.
Qed.

(** Each field of the exported row of [c] loads, with the stored value. *)
Lemma load_field_exported (tbl : Company.table) (c : Company.t) f proj :
  exportable c = true -> Company.name c ∉ Company.name <$> tbl ->
  (f, proj) ∈ columns ->
  CompanySchema.load_field tbl false f
    (ImportCSVResource.row_data
       (csv.dict_of_row ExportCSVResource.header
          (ExportCSVResource.data_row c)))
  = CompanySchema.Value (proj c).
Proof.
  intros Hc Hnew Hin.
  destruct (exportable_column c f proj Hc Hin) as [Hacc Hpr].
  pose proof (exported_row_lookup c f proj Hin) as Hd.
  destruct (decide (CompanySchema.field_name f = "name")) as [Hname|Hname].
  - assert (f = name_field /\ proj = Company.name) as [-> ->].
    { unfold columns, CompanySchema.load_fields, settable_fields in Hin.
      cbn [zip_with fmap list_fmap snd] in Hin.
      each_member Hin; injection Hin as -> ->; done. }
    destruct (accepts_name _ Hacc) as (s & Hs & Hne & Hlen).
    rewrite Hs in *. rewrite (cell_value_text _ Hpr) in Hd.
    apply name_field_Value; [exact Hd | done | | done].
    by apply get_by_name_None.
  - apply load_field_read_back; try done. by eapply columns_load_fields.
Qed.

(** [load] succeeds as soon as every field loads and every key is a field
    name. *)
Lemma load_all_fields (tbl : Company.table) (d : pydict) :
  (forall f, f ∈ CompanySchema.load_fields ->
     exists v, CompanySchema.load_field tbl false f d = CompanySchema.Value v) ->
  (forall k, is_Some (d !! k) ->
     k ∈ (Some ∘ CompanySchema.field_name) <$> CompanySchema.load_fields) ->
  CompanySchema.load tbl false (Obj d)
  = inr (CompanySchema.loaded_data tbl false d).
Proof.
  intros Hfields Hkeys.
  assert (CompanySchema.field_errors tbl false d = ∅) as Hfe.
  { apply map_empty. intros k.
    destruct (CompanySchema.field_errors tbl false d !! k) as [msgs|] eqn:E;
      [|done].
    apply field_errors_Some in E as (f & Hin & _ & Hinv).
    destruct (Hfields f Hin) as [v Hv]. congruence. }
  assert (CompanySchema.unknown_errors d = ∅) as Hue.
  { unfold CompanySchema.unknown_errors.
    apply fmap_empty_iff, map_empty_filter. intros k v Hk Hunknown.
    apply Hunknown. cbn [fst]. apply Hkeys. by rewrite Hk. }
  unfold CompanySchema.load. destruct (decide _) as [_|Hne]; [done|].
  destruct Hne. rewrite Hfe, Hue. apply (left_id_L ∅ (∪)).
Qed.

Lemma load_exported (tbl : Company.table) (c : Company.t) :
  exportable c = true -> Company.name c ∉ Company.name <$> tbl ->
  exists validated,
    CompanySchema.load tbl false
      (Obj (ImportCSVResource.row_data
              (csv.dict_of_row ExportCSVResource.header
                 (ExportCSVResource.data_row c))))
    = inr validated /\
    forall k proj, (k, proj) ∈ settable_fields ->
      validated !! k = Some (proj c).
Proof.
  intros Hc Hnew. eexists. split.
  - apply load_all_fields.
    + intros f Hin. destruct (load_fields_columns f Hin) as [proj Hcol].
      exists (proj c). by apply load_field_exported.
    + apply exported_row_keys.
  - intros k proj Hin.
    destruct (settable_fields_columns k proj Hin) as (f & Hcol & <-).
    apply loaded_data_Value; [by eapply columns_load_fields|].
    by apply load_field_exported.
Qed.

(** ** What the importer creates *)

(** The row an import creates from values that are those of [c]. *)
Lemma new_imported (e : Env) (k : nat) (validated : kwargs) (c : Company.t) :
  (forall k proj, (k, proj) ∈ settable_fields ->
     validated !! k = Some (proj c)) ->
  Company.parent_id c = PNone ->
  Company.new e k (CompanySchema.attr "name" validated)
    (import_kwargs validated)
  = reimport e k c.
Proof.
  intros Hvals Hparent. unfold Company.new, reimport, kwarg.
  rewrite import_kwargs_is_active.
  rewrite !import_kwargs_lookup by import_key.
  unfold CompanySchema.attr, kwarg.
  rewrite (Hvals "name" Company.name) by settable_member.
  rewrite (Hvals "description" Company.description) by settable_member.
  rewrite (Hvals "logo_url" Company.logo_url) by settable_member.
  rewrite (Hvals "parent_id" Company.parent_id) by settable_member.
  rewrite (Hvals "address" Company.address) by settable_member.
  rewrite (Hvals "email" Company.email) by settable_member.
  rewrite (Hvals "phone_number" Company.phone_number) by settable_member.
  rewrite (Hvals "website" Company.website) by settable_member.
  rewrite (Hvals "registration_number" Company.registration_number)
    by settable_member.
  rewrite (Hvals "tax_id" Company.tax_id) by settable_member.
  rewrite (Hvals "country" Company.country) by settable_member.
  rewrite (Hvals "city" Company.city) by settable_member.
  rewrite (Hvals "postal_code" Company.postal_code) by settable_member.
  rewrite (Hvals "employees_count" Company.employees_count)
    by settable_member.
  rewrite Hparent. reflexivity.
Qed.

Lemma reimport_from_names (e : Env) (tbl : Company.table) : forall k,
  Company.name <$> reimport_from e k tbl = Company.name <$> tbl.
Proof.
  induction tbl as [|c tbl IH]; intros k; [done|].
  cbn [reimport_from]. rewrite !fmap_cons. by rewrite IH.
Qed.

Lemma reimport_from_length (e : Env) (tbl : Company.table) : forall k,
  length (reimport_from e k tbl) = length tbl.
Proof.
  induction tbl as [|c tbl IH]; intros k; [done|].
  cbn [reimport_from length]. by rewrite IH.
Qed.

Lemma reimport_carried_over (e : Env) (k : nat) (c : Company.t) :
  Company.parent_id c = PNone -> carried_over c (reimport e k c).
Proof.
  intros Hparent j proj Hin Horg Hact. unfold settable_fields in Hin.
  each_member Hin; injection Hin as -> ->;
    first [done | by rewrite Hparent].
Qed.

Lemma reimport_from_carried_over (e : Env) (tbl : Company.table) : forall k,
  Forall (fun c => exportable c = true) tbl ->
  Forall2 carried_over tbl (reimport_from e k tbl).
Proof.
  induction tbl as [|c tbl IH]; intros k Hall; [constructor|].
  apply Forall_cons in Hall as [Hc Hall]. cbn [reimport_from].
  constructor; [|by apply IH].
  by apply reimport_carried_over, exportable_parent_id.
Qed.

(** ** The first import *)

(** The loop on the rows of an export, in a table that has none of their
    names: every row is created. *)
Lemma import_exported (e : Env) (rest : Company.table) : forall idx p,
  Forall (fun c => exportable c = true) rest ->
  NoDup (Company.name <$> rest) ->
  (forall c, c ∈ rest -> Company.name c ∉ Company.name <$> rows p) ->
  fresh_ids e (count p) (length rest) (rows p) ->
  import_loop e idx (exported_items rest) p
  = inr (mkProgress (count p + length rest) (errors p)
           (rows p ++ reimport_from e (count p) rest)).
Proof.
  induction rest as [|c rest IH]; intros idx p Hall Hnd Hnew Hfresh.
  - destruct p as [n errs tbl]. cbn [exported_items fmap list_fmap import_loop
      count errors rows length reimport_from].
    by rewrite Nat.add_0_r, app_nil_r.
  - apply Forall_cons in Hall as [Hc Hall].
    rewrite fmap_cons in Hnd. apply NoDup_cons in Hnd as [Hc_new Hnd].
    destruct (load_exported (rows p) c Hc) as (validated & Hload & Hvals).
    { apply Hnew. left. }
    unfold exported_items. rewrite fmap_cons. fold (exported_items rest).
    rewrite (import_loop_valid_fits _ _ _ _ _ _ Hload);
      [|unfold CompanySchema.attr, kwarg;
        rewrite (Hvals "employees_count" Company.employees_count)
          by settable_member;
        unfold exportable in Hc; by apply andb_prop in Hc as [_ ?]
       |exact (fresh_ids_head _ _ _ _ Hfresh)].
    rewrite (new_imported e (count p) validated c Hvals
               (exportable_parent_id c Hc)).
    rewrite IH; cbn [count errors rows]; try done.
    + cbn [length reimport_from]. rewrite <- app_assoc. cbn [app].
      by rewrite Nat.add_succ_r.
    + intros c' Hc'. rewrite fmap_app. apply not_elem_of_app. split.
      * apply Hnew. by right.
      * cbn. intros Hin%list_elem_of_singleton. apply Hc_new.
        rewrite <- Hin. by apply list_elem_of_fmap_2.
    + by apply fresh_ids_created.
Qed.

(** ** The second import *)

(** The loop on rows that all fail on their name: nothing is created, and
    each row leaves an error under its index. *)
Lemma import_loop_rejected (e : Env) (items : list payload) : forall idx p,
  Forall (fun item => exists errs,
            CompanySchema.load (rows p) false item = inl errs /\
            is_Some (errs !! Some "name")) items ->
  exists errs,
    import_loop e idx items p
    = inr (mkProgress (count p) (errors p ++ errs) (rows p)) /\
    errs.*1 = seq idx (length items) /\
    Forall (fun em => is_Some (em.2 !! Some "name")) errs.
Proof.
  induction items as [|item items IH]; intros idx p Hall.
  - exists []. destruct p. cbn. by rewrite app_nil_r.
  - apply Forall_cons in Hall as [(errs0 & Hload & Hname) Hall].
    rewrite (import_loop_invalid _ _ _ _ _ _ Hload).
    destruct (IH (S idx) (mkProgress (count p) (errors p ++ [(idx, errs0)])
                    (rows p)) Hall) as (errs & Hrun & Hidx & Hnames).
    exists ((idx, errs0) :: errs). cbn [count errors rows] in Hrun.
    rewrite Hrun, <- app_assoc. split; [done|]. split.
    + cbn [fmap list_fmap fst length seq]. by rewrite <- Hidx.
    + by constructor.
Qed.

Lemma exported_item_name_taken (tbl' : Company.table) (c : Company.t) :
  exportable c = true -> Company.name c ∈ Company.name <$> tbl' ->
  exists errs,
    CompanySchema.load tbl' false
      (Obj (ImportCSVResource.row_data
              (csv.dict_of_row ExportCSVResource.header
                 (ExportCSVResource.data_row c)))) = inl errs /\
    is_Some (errs !! Some "name").
Proof.
  intros Hc Hin.
  destruct (exportable_column c _ _ Hc name_column) as [_ Hpr].
  destruct (exportable_name c Hc) as (s & Hs & _).
  pose proof (exported_row_lookup c _ _ name_column) as Hd.
  rewrite (cell_value_text _ Hpr), Hs in Hd.
  change (CompanySchema.field_name name_field) with "name" in Hd.
  apply (load_name_taken tbl' false _ (PStr s) Hd). by rewrite <- Hs.
Qed.

(** ** The file *)

Lemma exported_items_reader (tbl : Company.table) :
  Obj ∘ ImportCSVResource.row_data
    <$> (csv.dict_of_row ExportCSVResource.header
           <$> (ExportCSVResource.data_row <$> tbl))
  = exported_items tbl.
Proof. unfold exported_items. by rewrite <- !list_fmap_compose. Qed.

Lemma header_plain :
  Forall (fun s => plain s = true) ExportCSVResource.header.
Proof. unfold ExportCSVResource.header. repeat constructor. Qed.

(** What [csv.DictReader] makes of the lines of an export. *)
Lemma DictReader_exported (tbl : Company.table) :
  Forall (fun c => exportable c = true) tbl ->
  csv.DictReader (splitlines (ExportCSVResource.getvalue tbl))
  = (csv.dict_of_row ExportCSVResource.header
       <$> (ExportCSVResource.data_row <$> tbl), None).
Proof.
  intros Hall. unfold ExportCSVResource.getvalue.
  rewrite list_fmap_compose. apply DictReader_written.
  - cbn. lia.
  - apply Forall_fmap, Forall_forall. intros c _. cbn. lia.
  - apply header_plain.
  - apply Forall_fmap. eapply Forall_impl; [exact Hall|].
    intros c Hc. cbn. by apply data_row_plain.
Qed.

Lemma import_exported_file (e : Env) (filename : string)
    (tbl tbl0 : Company.table) :
  filename <> "" -> Forall (fun c => exportable c = true) tbl ->
  ImportCSVResource.post e (exported_file filename tbl) tbl0
  = match import_loop e 0 (exported_items tbl) (mkProgress 0 [] tbl0) with
    | inr p => (import_report p, rows p)
    | inl (IntegrityError msg, tbl') | inl (SQLAlchemyError msg, tbl') =>
        ((Message ("Database error: " +:+ msg), 400%nat), tbl')
    | inl (OverflowError msg, tbl') => ((Uncaught msg, 500%nat), tbl')
    end.
Proof.
  intros Hfn Hall. unfold ImportCSVResource.post, exported_file.
  cbn [ImportCSVResource.filename ImportCSVResource.stream].
  rewrite bool_decide_eq_false_2 by done.
  unfold Company.get_all. rewrite (DictReader_exported tbl Hall).
  rewrite exported_items_reader.
  destruct (import_loop _ _ _ _) as [[[] ?]|]; done.
Qed.

Lemma reimport_from_fixed (e : Env) (tbl : Company.table) : forall k,
  Forall (fun c' => Company.organization_id c' = PNone /\
                    Company.is_active c' = PBool true)
    (reimport_from e k tbl).
Proof.
  induction tbl as [|c tbl IH]; intros k; cbn [reimport_from]; [constructor|].
  constructor; [done | apply IH].
Qed.

(** C5, as amended.  Take a table whose records have distinct names and
    are exportable: every attribute holds a value the schema accepts as it
    is on an empty table (so no record has a parent), no string is empty
    or contains a line boundary, and the employees count fits the 64 bits
    of its column.  The export answers 200 with the CSV text
    of the table.  Importing that file into an empty table, the identifiers
    drawn being pairwise distinct, imports every row (status 200), and the
    records it creates agree with the originals, in order, on every
    attribute except [id], [created_at], [updated_at], [organization_id]
    (always null after an import) and [is_active] (always true after an
    import).  Importing the same file again into the resulting table
    creates nothing and reports, for every row, under the index of the
    row, a validation error with an entry for [name]; the status is 400
    as soon as the file has a row. *)
Theorem export_then_import_round_trip (e1 e2 : Env) (filename : string)
    (tbl : Company.table) :
  filename <> "" ->
  Forall (fun c => exportable c = true) tbl ->
  unique_names tbl ->
  fresh_ids e1 0 (length tbl) [] ->
  fst (ExportCSVResource.get tbl)
  = (CsvFile (ExportCSVResource.getvalue (Company.get_all tbl)), 200%nat) /\
  exists tbl',
    ImportCSVResource.post e1 (exported_file filename tbl) []
    = ((ImportSuccess (length tbl), 200%nat), tbl') /\
    tbl' = reimport_from e1 0 tbl /\
    Forall2 carried_over tbl tbl' /\
    Forall (fun c' => Company.organization_id c' = PNone /\
                      Company.is_active c' = PBool true) tbl' /\
    exists errs,
      ImportCSVResource.post e2 (exported_file filename tbl) tbl'
      = (import_report (mkProgress 0 errs tbl'), tbl') /\
      errs.*1 = seq 0 (length tbl) /\
      Forall (fun em => is_Some (em.2 !! Some "name")) errs /\
      (tbl <> [] ->
       import_report (mkProgress 0 errs tbl') = (ImportErrors 0 errs, 400%nat)).
Proof.
  intros Hfn Hall Hnames Hfresh. split; [reflexivity|].
  exists (reimport_from e1 0 tbl). split.
  { rewrite import_exported_file by done.
    rewrite import_exported; try done.
    intros c _. apply not_elem_of_nil. }
  split; [done|]. split; [by apply reimport_from_carried_over|].
  split; [apply reimport_from_fixed|].
  destruct (import_loop_rejected e2 (exported_items tbl) 0
              (mkProgress 0 [] (reimport_from e1 0 tbl)))
    as (errs & Hrun & Hidx & Herrs).
  { unfold exported_items. apply Forall_fmap, Forall_forall.
    intros c Hc. cbn [rows compose].
    rewrite Forall_forall in Hall.
    apply exported_item_name_taken; [by apply Hall|].
    rewrite reimport_from_names. by apply list_elem_of_fmap_2. }
  cbn [count errors rows app] in Hrun.
  unfold exported_items in Hidx. rewrite length_fmap in Hidx.
  exists errs. split.
  { rewrite import_exported_file by done. by rewrite Hrun. }
  split; [done|]. split; [done|].
  intros Hne. unfold import_report. cbn [count errors].
  destruct errs as [|err errs]; [|done].
  destruct tbl; [done | discriminate Hidx].
Qed.

(** ** Instances on the sample data *)

(** C1, counterexample: the insert of a second row called "Acme" is
    committed; the table then holds the name twice. *)
Lemma create_accepts_duplicate_name :
  Company.create sample_env 0 (PStr "Acme") ∅ [acme]
  = inr (Company.new sample_env 0 (PStr "Acme") ∅,
         [acme; Company.new sample_env 0 (PStr "Acme") ∅]) /\
  Company.name (Company.new sample_env 0 (PStr "Acme") ∅) = Company.name acme /\
  ~ unique_names [acme; Company.new sample_env 0 (PStr "Acme") ∅].
Proof.
  split; [vm_compute; reflexivity|]. split; [reflexivity|].
  unfold unique_names. intros Hnd. apply NoDup_cons in Hnd as [Hnew _].
  apply Hnew. apply list_elem_of_here.
Qed.

Lemma names_unique_by_validation_only_witness :
  (length two_companies = 2%nat /\ unique_names two_companies) /\
  exists row2,
    Company.create later_env 0 (PStr "Acme") ∅ [acme]
    = inr (row2, [acme] ++ [row2]) /\
    Company.name row2 = Company.name acme /\
    ~ unique_names ([acme] ++ [row2]).
Proof.
  split.
  - split; [vm_compute; reflexivity|]. unfold two_companies.
    apply (proj1 names_unique_by_validation_only).
    apply reachable_step, reachable_step, reachable_empty.
  - apply (proj2 names_unique_by_validation_only later_env 0%nat ∅ [acme]
             acme "Acme" "Other"
             (Company.new later_env 0 (PStr "Other") ∅)
             [acme; Company.new later_env 0 (PStr "Other") ∅]).
    + apply list_elem_of_here.
    + reflexivity.
    + vm_compute. reflexivity.
Defined.

Lemma post_existing_name_rejected_witness :
  exists errs,
    CompanyListResource.post sample_env (Obj (name_only "Acme")) [acme]
    = ((ValidationErrors errs, 400%nat), [acme]) /\
    is_Some (errs !! Some "name").
Proof.
  apply (post_existing_name_rejected sample_env (name_only "Acme") [acme]
           (PStr "Acme") acme).
  - vm_compute. reflexivity.
  - apply list_elem_of_here.
  - reflexivity.
Defined.

(** C3: a PUT that carries only a new name answers 200 and renames the
    company, but the description it does not mention keeps its old value,
    while the employees count it does not mention either becomes 0. *)
Theorem put_retains_absent_fields :
  exists c',
    CompanyResource.put sample_env "c1" (Obj (name_only "Acme2")) [acme]
    = ((Dump c', 200%nat), [c']) /\
    Company.name c' = PStr "Acme2" /\
    Company.description c' = PStr "old" /\
    Company.description acme = PStr "old" /\
    name_only "Acme2" !! Some "description" = None /\
    Company.employees_count c' = PInt 0.
Proof.
  exists (Company.update_attrs acme
            (<["name" := PStr "Acme2"]> (full_kwargs (name_only "Acme2")))
            (now sample_env 0)).
  repeat split; vm_compute; reflexivity.
Qed.

(** C4, counterexample: a PATCH that supplies the string "12" for
    [employees_count] answers 200, and the record then holds the integer
    12, not the value supplied. *)
Lemma patch_stores_integer_for_numeric_string :
  exists c',
    CompanyResource.patch sample_env "c1" (Obj count_as_text) [acme]
    = ((Dump c', 200%nat), [c']) /\
    count_as_text !! Some "employees_count" = Some (PStr "12") /\
    Company.employees_count c' = PInt 12 /\
    Company.employees_count c' <> PStr "12".
Proof.
  eexists. split; [vm_compute; reflexivity|].
  split; [vm_compute; reflexivity|]. split; [reflexivity|]. discriminate.
Qed.

Lemma patch_touches_only_supplied_non_null_fields_witness :
  exists c',
    CompanyResource.patch sample_env "c1" (Obj sparse_payload) [acme]
    = ((Dump c', 200%nat), [c']) /\
    Company.get_by_id "c1" [c'] = Some c' /\
    Company.id c' = Company.id acme /\
    Company.created_at c' = Company.created_at acme /\
    forall k proj, (k, proj) ∈ settable_fields ->
      match sparse_payload !! Some k with
      | None | Some PNone => proj c' = proj acme
      | Some v =>
          (if decide (v = proj acme) then proj c' = v
           else column_bind sample_env k v = inr (proj c')) /\
          (column_keeps k v = true -> proj c' = v)
      end.
Proof.
  eexists. split; [vm_compute; reflexivity|].
  apply (patch_touches_only_supplied_non_null_fields sample_env "c1"
           sparse_payload [acme]).
  - vm_compute. reflexivity.
  - vm_compute. reflexivity.
Defined.








Lemma post_never_persists_hierarchy_fields_witness :
  (exists c,
     CompanyListResource.post sample_env (Obj subsidiary_payload) [acme]
     = ((Dump c, 201%nat), [acme] ++ [c]) /\
     Company.parent_id c = PNone /\
     Company.organization_id c = PNone /\
     Company.is_active c = PBool true /\
     Company.employees_count c = PInt 0 /\
     (subsidiary_payload !! Some "employees_count" = None ->
      Company.employees_count c = PInt 0)) /\
  CompanyListResource.post sample_env (Obj crowded_payload) [acme]
  = ((Uncaught (str_error sample_env (TooLarge too_many)), 500%nat), [acme]).
Proof.
  split.
  - apply (post_never_persists_hierarchy_fields sample_env subsidiary_payload
             [acme]
             (CompanySchema.loaded_data [acme] false subsidiary_payload)).
    + vm_compute. reflexivity.
    + vm_compute. reflexivity.
  - apply (post_never_persists_hierarchy_fields sample_env crowded_payload
             [acme]
             (CompanySchema.loaded_data [acme] false crowded_payload)).
    + vm_compute. reflexivity.
    + vm_compute. reflexivity.
Defined.

Lemma update_existing_name_rejected_witness :
  (exists errs,
     CompanyResource.put sample_env "c1" (Obj (name_only "Acme")) [acme]
     = ((ValidationErrors errs, 400%nat), [acme]) /\
     is_Some (errs !! Some "name")) /\
  (exists errs,
     CompanyResource.patch sample_env "c1" (Obj (name_only "Acme")) [acme]
     = ((ValidationErrors errs, 400%nat), [acme]) /\
     is_Some (errs !! Some "name")).
Proof.
  apply (update_existing_name_rejected sample_env "c1" (name_only "Acme")
           [acme] (PStr "Acme") acme).
  - vm_compute. reflexivity.
  - apply list_elem_of_here.
  - reflexivity.
Defined.

(** ** The round trip on the sample tables *)

(** C5, counterexample.  Exported and imported into an empty table: a
    record with an organization that is not active comes back without
    organization and active; of a company and its subsidiary only the
    company comes back, the subsidiary being rejected for its parent; an
    empty description comes back as null; a description in two lines
    comes back in one. *)
Lemma round_trip_changes_records :
  (exists c',
     ImportCSVResource.post sample_env
       (exported_file "companies.csv" [with_organization acme]) []
     = ((ImportSuccess 1, 200%nat), [c']) /\
     Company.organization_id (with_organization acme) = PStr "org-1" /\
     Company.organization_id c' = PNone /\
     Company.is_active (with_organization acme) = PBool false /\
     Company.is_active c' = PBool true) /\
  (exists c' errs,
     ImportCSVResource.post sample_env
       (exported_file "companies.csv" [acme; with_parent "c1" borealis]) []
     = ((ImportErrors 1 [(1%nat, errs)], 207%nat), [c']) /\
     Company.name c' = PStr "Acme" /\
     is_Some (errs !! Some "parent_id")) /\
  (exists c',
     ImportCSVResource.post sample_env
       (exported_file "companies.csv" [with_description "" acme]) []
     = ((ImportSuccess 1, 200%nat), [c']) /\
     Company.description (with_description "" acme) = PStr "" /\
     Company.description c' = PNone) /\
  (exists c',
     ImportCSVResource.post sample_env
       (exported_file "companies.csv" [with_description two_lines acme]) []
     = ((ImportSuccess 1, 200%nat), [c']) /\
     Company.description (with_description two_lines acme) = PStr two_lines /\
     Company.description c' = PStr "Toolsand dies").
Proof.
  split; [|split; [|split]].
  - eexists. split; [vm_compute; reflexivity|].
    repeat split; vm_compute; reflexivity.
  - eexists _, _. split; [vm_compute; reflexivity|].
    split; [vm_compute; reflexivity|]. vm_compute. eauto.
  - eexists. split; [vm_compute; reflexivity|].
    repeat split; vm_compute; reflexivity.
  - eexists. split; [vm_compute; reflexivity|].
    repeat split; vm_compute; reflexivity.
Qed.

Lemma sample_env_fresh_pair : fresh_ids sample_env 0 2 [].
Proof.
  split.
  - intros k _. apply not_elem_of_nil.
  - intros j k Hj Hk.
    assert (j = 0 /\ k = 1)%nat as [-> ->] by lia. vm_compute. discriminate.
Defined.

Lemma export_then_import_round_trip_witness :
  fst (ExportCSVResource.get [acme; borealis])
  = (CsvFile (ExportCSVResource.getvalue (Company.get_all [acme; borealis])),
     200%nat) /\
  exists tbl',
    ImportCSVResource.post sample_env
      (exported_file "companies.csv" [acme; borealis]) []
    = ((ImportSuccess (length [acme; borealis]), 200%nat), tbl') /\
    tbl' = reimport_from sample_env 0 [acme; borealis] /\
    Forall2 carried_over [acme; borealis] tbl' /\
    Forall (fun c' => Company.organization_id c' = PNone /\
                      Company.is_active c' = PBool true) tbl' /\
    exists errs,
      ImportCSVResource.post later_env
        (exported_file "companies.csv" [acme; borealis]) tbl'
      = (import_report (mkProgress 0 errs tbl'), tbl') /\
      errs.*1 = seq 0 (length [acme; borealis]) /\
      Forall (fun em => is_Some (em.2 !! Some "name")) errs /\
      ([acme; borealis] <> [] ->
       import_report (mkProgress 0 errs tbl') = (ImportErrors 0 errs, 400%nat)).
Proof.
  apply (export_then_import_round_trip sample_env later_env "companies.csv"
           [acme; borealis]).
  - discriminate.
  - repeat constructor; vm_compute; reflexivity.
  - apply (bool_decide_unpack _). vm_compute. reflexivity.
  - exact sample_env_fresh_pair.
Defined.
